(** * SyncRoom: clock synchronisation and room coordination

    A shallow embedding of [services/syncManager.ts] (class [SyncManager]) and
    [services/mockSocketService.ts] ([MockSocket.connect],
    [MockSocket.disconnect], [MockSocket.emit], [handleServerEvent]), with the
    parts of [services/database.ts] those functions call.

    Conventions of the embedding.
    - A JavaScript [number] is an exact rational ([Q]); the rounding of IEEE
      doubles is outside the model, and so are the values that are not
      finite ([NaN], the infinities), which [JSON.stringify] writes as
      [null].  [===] on numbers is [Qeq_bool], and a number used as a
      condition is truthy when it is not zero.
    - [Date.now()] and [Math.random()] are read by the caller and passed in.
    - A callback run under [withLock] is one atomic step on the world;
      [setTimeout] delays and asynchronous database writes take effect at once.
    - The [storage] listener and the channel's [onmessage] assign
      [mockState] only; every operation reloads it from the store first, so
      they are left out.
    - Records live in modules of their own so that the fields keep the names
      they have in [types.ts]. *)

From Stdlib Require Import String Bool Arith ZArith Lia List.
From Stdlib Require Import QArith Qabs Qminmax Qround Lqa.
Import ListNotations.

Open Scope Q_scope.

(** ** Numbers *)

(** [a < b] on numbers, as a boolean. *)
Definition Qltb (a b : Q) : bool := negb (Qle_bool b a).

(** [parseFloat(x.toFixed(d))]: the multiple of [10^-d] nearest to [x], the
    tie going away from zero. *)
Definition toFixed (d : nat) (x : Q) : Q :=
  let scale := inject_Z (10 ^ Z.of_nat d) in
  if Qle_bool 0 x
  then inject_Z (Qfloor (x * scale + (1 # 2))) / scale
  else - (inject_Z (Qfloor ((- x) * scale + (1 # 2))) / scale).

(** ** syncManager.ts *)

Module SyncSample.
Record t : Type := mk { rtt : Q; offset : Q; receivedAt : Q }.
End SyncSample.

Module AudioStats.
Record t : Type := mk { latency : Q; offset : Q; drift : Q; jitter : Q }.
End AudioStats.

Module SyncManager.

(** The private fields of the class. *)
Record t : Type := mk {
  samples : list SyncSample.t;
  currentOffset : Q;
  currentLatency : Q;
  drift : Q;
  jitter : Q
}.

Definition WINDOW_SIZE : nat := 20.

(** The field initialisers. *)
Definition init : t := mk [] 0 0 0 0.

(** [rtt = Math.max(0, networkDelay)]. *)
Definition rttOf (clientSendTime serverReceiveTime serverReplyTime clientReceiveTime : Q) : Q :=
  let networkDelay :=
    (clientReceiveTime - clientSendTime) - (serverReplyTime - serverReceiveTime) in
  Qmax 0 networkDelay.

Definition rawOffsetOf (clientSendTime serverReceiveTime serverReplyTime clientReceiveTime : Q) : Q :=
  ((serverReceiveTime - clientSendTime) + (serverReplyTime - clientReceiveTime)) / 2.

(** [samples[samples.length - 1]], when there is one. *)
Definition lastSample (l : list SyncSample.t) : option SyncSample.t :=
  nth_error l (length l - 1).

(** The jitter update, skipped while the history is empty. *)
Definition nextJitter (prev : list SyncSample.t) (rtt j : Q) : Q :=
  match lastSample prev with
  | Some p => j + (Qabs (rtt - SyncSample.rtt p) - j) / 16
  | None => j
  end.

(** [samples.push(sample)], then [samples.shift()] above the window size. *)
Definition pushSample (l : list SyncSample.t) (s : SyncSample.t) : list SyncSample.t :=
  let l' := l ++ [s] in
  if Nat.ltb WINDOW_SIZE (length l') then tl l' else l'.

(** [samples.reduce((min, s) => (s.rtt < min.rtt ? s : min), samples[0])]. *)
Definition bestSample (first : SyncSample.t) (l : list SyncSample.t) : SyncSample.t :=
  fold_left
    (fun min s => if Qltb (SyncSample.rtt s) (SyncSample.rtt min) then s else min)
    l first.

(** The drift update: only with two samples that are more than a second apart. *)
Definition nextDrift (l : list SyncSample.t) (d : Q) : Q :=
  if Nat.leb 2 (length l) then
    match l, lastSample l with
    | oldest :: _, Some newest =>
        let timeSpanSec :=
          (SyncSample.receivedAt newest - SyncSample.receivedAt oldest) / 1000 in
        if Qltb 1 timeSpanSec
        then (SyncSample.offset newest - SyncSample.offset oldest) / timeSpanSec
        else d
    | _, _ => d
    end
  else d.

(** The smoothing of the offset: snap or slew. *)
Definition nextOffset (current targetOffset : Q) : Q :=
  if Qeq_bool current 0 || Qltb 500 (Qabs (targetOffset - current))
  then targetOffset
  else current + (targetOffset - current) * (15 # 100).

(** [processPong], with the reading of [Date.now()] as [clientReceiveTime]. *)
Definition processPong
    (clientSendTime serverReceiveTime serverReplyTime clientReceiveTime : Q)
    (m : t) : t * AudioStats.t :=
  let rtt := rttOf clientSendTime serverReceiveTime serverReplyTime clientReceiveTime in
  let rawOffset :=
    rawOffsetOf clientSendTime serverReceiveTime serverReplyTime clientReceiveTime in
  let jitter' := nextJitter (samples m) rtt (jitter m) in
  let sample := SyncSample.mk rtt rawOffset clientReceiveTime in
  let samples' := pushSample (samples m) sample in
  let best := bestSample (hd sample samples') samples' in
  let targetOffset := SyncSample.offset best in
  let drift' := nextDrift samples' (drift m) in
  let offset' := nextOffset (currentOffset m) targetOffset in
  let latency' := SyncSample.rtt best / 2 in
  (mk samples' offset' latency' drift' jitter',
   AudioStats.mk (toFixed 2 latency') (toFixed 2 offset')
                 (toFixed 3 drift') (toFixed 2 jitter')).

Definition getEstimatedServerTime (now : Q) (m : t) : Q := now + currentOffset m.
Definition getLocalTimeFromServerTime (serverTime : Q) (m : t) : Q :=
  serverTime - currentOffset m.
Definition getOffset (m : t) : Q := currentOffset m.

End SyncManager.

(** A pong as the client sees it: the three times of the message and the
    local clock at its arrival. *)
Record Pong : Type := mkPong {
  clientSendTime : Q;
  serverReceiveTime : Q;
  serverReplyTime : Q;
  clientReceiveTime : Q
}.

Definition pongRtt (p : Pong) : Q :=
  SyncManager.rttOf (clientSendTime p) (serverReceiveTime p)
                    (serverReplyTime p) (clientReceiveTime p).

Definition pongOffset (p : Pong) : Q :=
  SyncManager.rawOffsetOf (clientSendTime p) (serverReceiveTime p)
                          (serverReplyTime p) (clientReceiveTime p).

(** The manager after one pong. *)
Definition ingest (m : SyncManager.t) (p : Pong) : SyncManager.t :=
  fst (SyncManager.processPong (clientSendTime p) (serverReceiveTime p)
                               (serverReplyTime p) (clientReceiveTime p) m).

(** The manager after a sequence of pongs, oldest first. *)
Definition ingestAll (m : SyncManager.t) (ps : list Pong) : SyncManager.t :=
  fold_left ingest ps m.

(** The smoothing target of a pong: the offset of the minimum-rtt sample of
    the window that includes it. *)
Definition targetOffsetOf (m : SyncManager.t) (p : Pong) : Q :=
  let sample := SyncSample.mk (pongRtt p) (pongOffset p) (clientReceiveTime p) in
  let samples' := SyncManager.pushSample (SyncManager.samples m) sample in
  SyncSample.offset (SyncManager.bestSample (hd sample samples') samples').

(** ** types.ts *)

Inductive PlaybackState : Type := PAUSED | PLAYING | BUFFERING.

Definition PlaybackState_eqb (a b : PlaybackState) : bool :=
  match a, b with
  | PAUSED, PAUSED | PLAYING, PLAYING | BUFFERING, BUFFERING => true
  | _, _ => false
  end.

Module User.
Record t : Type := mk {
  id : string;
  name : string;
  isHost : bool;
  avatar : option string
}.
Definition withIsHost (b : bool) (u : t) : t := mk (id u) (name u) b (avatar u).
End User.

Inductive TrackType : Type := stream | shared_file.

Module Track.
Record t : Type := mk {
  id : string;
  title : string;
  artist : string;
  url : string;
  fileId : option string;
  duration : Q;
  coverUrl : string;
  type : TrackType
}.
End Track.

Module RoomState.
Record t : Type := mk {
  id : string;
  name : string;
  users : list User.t;
  queue : list Track.t;
  currentTrackId : option string;
  playbackState : PlaybackState;
  startAtServerTime : option Q;
  pausedAtPosition : option Q;
  adminId : string;
  playAllowedUserIds : list string
}.

(** Assignments to single fields of [mockState]. *)
Definition withUsers (v : list User.t) (s : t) : t :=
  mk (id s) (name s) v (queue s) (currentTrackId s) (playbackState s)
     (startAtServerTime s) (pausedAtPosition s) (adminId s) (playAllowedUserIds s).
Definition withQueue (v : list Track.t) (s : t) : t :=
  mk (id s) (name s) (users s) v (currentTrackId s) (playbackState s)
     (startAtServerTime s) (pausedAtPosition s) (adminId s) (playAllowedUserIds s).
Definition withAdminId (v : string) (s : t) : t :=
  mk (id s) (name s) (users s) (queue s) (currentTrackId s) (playbackState s)
     (startAtServerTime s) (pausedAtPosition s) v (playAllowedUserIds s).
Definition withPlayAllowedUserIds (v : list string) (s : t) : t :=
  mk (id s) (name s) (users s) (queue s) (currentTrackId s) (playbackState s)
     (startAtServerTime s) (pausedAtPosition s) (adminId s) v.
(** The four playback fields, which the handlers assign together. *)
Definition withPlayback (track : option string) (pb : PlaybackState)
    (startAt paused : option Q) (s : t) : t :=
  mk (id s) (name s) (users s) (queue s) track pb startAt paused
     (adminId s) (playAllowedUserIds s).
End RoomState.

(** ** database.ts *)

Module UserRecord.
Inductive Role : Type := admin | user.
Record t : Type := mk { id : string; name : string; role : Role }.
End UserRecord.

Module SongRecord.
Record t : Type := mk {
  id : string;
  title : string;
  artist : string;
  url : string;
  duration : Q;
  uploadedBy : string;
  coverUrl : string;
  type : TrackType;
  fileId : option string
}.
End SongRecord.

Module PermissionRecord.
Record t : Type := mk { id : string; roomId : string; userId : string; canPlay : bool }.
End PermissionRecord.

Module PlayHistoryRecord.
Record t : Type := mk { roomId : string; songId : string; playedBy : string }.
End PlayHistoryRecord.

(** The object stores the services write.  A store is the list of its
    records; the order of a store and the [createdAt] and [playedAt] stamps,
    which [database.ts] reads from the clock at each write, are not modelled. *)
Module Database.
Record t : Type := mk {
  users : list UserRecord.t;
  songs : list SongRecord.t;
  room_permissions : list PermissionRecord.t;
  play_history : list PlayHistoryRecord.t
}.

Definition empty : t := mk [] [] [] [].

Section Store.
Context {A : Type} (key : A -> string).

Definition hasKey (k : string) (l : list A) : bool :=
  existsb (fun r => String.eqb (key r) k) l.

(** [store.put(record)]: the record replaces the one with its key. *)
Definition put (r : A) (l : list A) : list A :=
  if hasKey (key r) l
  then map (fun r' => if String.eqb (key r') (key r) then r else r') l
  else l ++ [r].

(** [store.add(record)]: refused when the key is taken. *)
Definition add (r : A) (l : list A) : list A :=
  if hasKey (key r) l then l else l ++ [r].

(** [store.delete(key)]. *)
Definition delete (k : string) (l : list A) : list A :=
  filter (fun r => negb (String.eqb (key r) k)) l.
End Store.

Definition upsertUser (u : User.t) (d : t) : t :=
  let record :=
    UserRecord.mk (User.id u) (User.name u)
      (if User.isHost u then UserRecord.admin else UserRecord.user) in
  mk (put UserRecord.id record (users d)) (songs d) (room_permissions d) (play_history d).

Definition addSong (s : SongRecord.t) (d : t) : t :=
  mk (users d) (add SongRecord.id s (songs d)) (room_permissions d) (play_history d).

Definition setPermission (roomId userId : string) (canPlay : bool) (d : t) : t :=
  let id := (roomId ++ "_" ++ userId)%string in
  let store := room_permissions d in
  let store' :=
    if canPlay
    then put PermissionRecord.id (PermissionRecord.mk id roomId userId true) store
    else delete PermissionRecord.id id store in
  mk (users d) (songs d) store' (play_history d).

Definition getPermissions (roomId : string) (d : t) : list string :=
  map PermissionRecord.userId
    (filter (fun p => String.eqb (PermissionRecord.roomId p) roomId
                      && PermissionRecord.canPlay p)
            (room_permissions d)).

Definition logPlay (roomId songId userId : string) (d : t) : t :=
  mk (users d) (songs d) (room_permissions d)
     (play_history d ++ [PlayHistoryRecord.mk roomId songId userId]).
End Database.

(** ** mockSocketService.ts *)

(** The events of the subscription surface, with their payloads. *)
Inductive Event : Type :=
  | room_update (state : RoomState.t)
  | user_joined (u : User.t)
  | user_left (u : User.t)
  | sync_pong (clientSendTime serverReceiveTime serverReplyTime : Q)
  | play_scheduled (trackId : option string) (playAtServerTime startOffset : Q)
  | pause_sync (pauseAtServerTime position : Q)
  | seek_sync (position atServerTime : Q).

(** [broadcastToLocal] reaches the listeners of this tab, [broadcastGlobal]
    those and the room's channel. *)
Inductive Audience : Type := Local | Global.

(** The event names [handleServerEvent] switches on, each with the fields it
    reads from the payload; [other] is any name the switch has no case for. *)
Inductive Command : Type :=
  | sync_ping (clientSendTime : Q)
  | cmd_grantPlay (targetUserId : string)
  | cmd_revokePlay (targetUserId : string)
  | cmd_play
  | cmd_playSpecificTrack (trackId : string)
  | cmd_pause
  | cmd_seek (position : Q)
  | cmd_addTrack (newTrack : Track.t)
  | cmd_next
  | other (event : string).

(** The module-level variables of the tab, the browser's [localStorage]
    (keyed by room id), the database, and the events sent so far, oldest
    first.  [activeRoomId] is read only through its truth value
    ([if (!activeRoomId) return]) and, when truthy, as a room id: [None]
    stands for [null] and for the empty string, [Some r] for a room id [r]
    that is not empty. *)
Record World : Type := mkWorld {
  activeRoomId : option string;
  mockState : option RoomState.t;
  localStorage : string -> option RoomState.t;
  db : Database.t;
  outbox : list (Audience * Event)
}.

Definition SAMPLE_TRACKS : list Track.t :=
  [ Track.mk "t1" "Neon Nights" "Synthwave Boy"
      "https://www.soundhelix.com/examples/mp3/SoundHelix-Song-1.mp3"
      None 372 "https://picsum.photos/id/10/300/300" stream ].

(** [loadState]: the stored snapshot, or the seed room when there is none
    (or none that parses). *)
Definition loadState (ls : string -> option RoomState.t) (roomId : string) : RoomState.t :=
  match ls roomId with
  | Some stored => stored
  | None =>
      RoomState.mk roomId ("Room " ++ roomId)%string [] SAMPLE_TRACKS (Some "t1"%string)
                   PAUSED None (Some 0) EmptyString []
  end.

Definition setItem (key : string) (v : RoomState.t) (ls : string -> option RoomState.t)
    : string -> option RoomState.t :=
  fun k => if String.eqb k key then Some v else ls k.

(** [array.includes(x)] on ids. *)
Definition includes (x : string) (l : list string) : bool :=
  existsb (String.eqb x) l.

(** [Array.from(new Set(l))]: the first occurrence of each id, in order. *)
Fixpoint uniqueFrom (seen l : list string) : list string :=
  match l with
  | [] => []
  | x :: rest =>
      if includes x seen then uniqueFrom seen rest
      else x :: uniqueFrom (x :: seen) rest
  end.

Definition unique (l : list string) : list string := uniqueFrom [] l.

(** [array.findIndex(p)]: [-1] when no element passes. *)
Fixpoint findIndex {A : Type} (p : A -> bool) (l : list A) : Z :=
  match l with
  | [] => (-1)%Z
  | x :: rest =>
      if p x then 0%Z
      else let i := findIndex p rest in
           if (i <? 0)%Z then (-1)%Z else (i + 1)%Z
  end.

(** [array[i]]: [undefined] outside the array. *)
Definition at_index {A : Type} (l : list A) (i : Z) : option A :=
  if (i <? 0)%Z then None else nth_error l (Z.to_nat i).

(** [n || 0] on a nullable number. *)
Definition orZero (n : option Q) : Q :=
  match n with
  | Some v => if Qeq_bool v 0 then 0 else v
  | None => 0
  end.

(** [id === mockState.currentTrackId]. *)
Definition isCurrent (current : option string) (id : string) : bool :=
  match current with
  | Some c => String.eqb id c
  | None => false
  end.

Definition hasPermission (userId : string) (s : RoomState.t) : bool :=
  includes userId (RoomState.playAllowedUserIds s).

Definition isAdmin (userId : string) (s : RoomState.t) : bool :=
  String.eqb (RoomState.adminId s) userId.

Definition setDb (d : Database.t) (w : World) : World :=
  mkWorld (activeRoomId w) (mockState w) (localStorage w) d (outbox w).

Definition setMockState (s : RoomState.t) (w : World) : World :=
  mkWorld (activeRoomId w) (Some s) (localStorage w) (db w) (outbox w).

(** [saveState(mockState)] for the new value [s] of [mockState].  The store
    holds the record itself: [JSON.parse] in [loadState] gives back what
    [JSON.stringify] wrote for strings, booleans, [null], arrays and finite
    numbers, and every number of the model is finite.  In the program a
    number that is not finite (an overflow such as a seek to [1e306] seconds,
    or a [NaN] payload) is stored as [null]; the statements below about all
    stored rooms claim nothing that such a [null] would break. *)
Definition saveState (s : RoomState.t) (w : World) : World :=
  mkWorld (activeRoomId w) (Some s)
          (setItem (RoomState.id s) s (localStorage w)) (db w) (outbox w).

Definition broadcastToLocal (e : Event) (w : World) : World :=
  mkWorld (activeRoomId w) (mockState w) (localStorage w) (db w)
          (outbox w ++ [(Local, e)]).

Definition broadcastGlobal (e : Event) (w : World) : World :=
  mkWorld (activeRoomId w) (mockState w) (localStorage w) (db w)
          (outbox w ++ [(Global, e)]).

(** [MockSocket.connect(userName, roomId)]; [userId] is the id drawn from
    [Math.random()].  The result is the world and the user the promise
    resolves to.  [connect] assigns [activeRoomId = roomId] and runs the
    rest under [withLock], which returns before its callback when
    [activeRoomId] is falsy: with the empty room id nothing is loaded,
    saved or sent, [mockState] stays, and the promise never resolves
    ([None]). *)
Definition connect (userName roomId userId : string) (w : World)
    : World * option User.t :=
  if String.eqb roomId EmptyString then
    (mkWorld None (mockState w) (localStorage w) (db w) (outbox w), None)
  else
  let s := loadState (localStorage w) roomId in
  let isFirstUser := Nat.eqb (length (RoomState.users s)) 0 in
  let '(s1, db1) :=
    if isFirstUser then
      (RoomState.withPlayAllowedUserIds [userId] (RoomState.withAdminId userId s),
       Database.setPermission roomId userId true (db w))
    else if String.eqb (RoomState.adminId s) EmptyString then
      (RoomState.withPlayAllowedUserIds [userId] (RoomState.withAdminId userId s),
       Database.setPermission roomId userId true (db w))
    else
      let allowedIds := Database.getPermissions roomId (db w) in
      (RoomState.withPlayAllowedUserIds
         (unique (RoomState.playAllowedUserIds s ++ allowedIds)) s,
       db w) in
  let newUser :=
    User.mk userId userName (String.eqb userId (RoomState.adminId s1))
      (Some ("https://api.dicebear.com/7.x/avataaars/svg?seed=" ++ userName)%string) in
  let db2 := Database.upsertUser newUser db1 in
  let s2 := RoomState.withUsers (RoomState.users s1 ++ [newUser]) s1 in
  let w1 := mkWorld (Some roomId) (Some s2) (localStorage w) db2 (outbox w) in
  let w2 := saveState s2 w1 in
  let w3 := broadcastGlobal (room_update s2) w2 in
  (broadcastGlobal (user_joined newUser) w3, Some newUser).

(** [MockSocket.disconnect(userId)]. *)
Definition disconnect (userId : string) (w : World) : World :=
  match activeRoomId w with
  | None => w
  | Some roomId =>
      let s := loadState (localStorage w) roomId in
      let userLeaving :=
        find (fun u => String.eqb (User.id u) userId) (RoomState.users s) in
      let users1 :=
        filter (fun u => negb (String.eqb (User.id u) userId)) (RoomState.users s) in
      let '(adminId1, allowed1, db1) :=
        if String.eqb userId (RoomState.adminId s) then
          match users1 with
          | newAdmin :: _ =>
              if negb (includes (User.id newAdmin) (RoomState.playAllowedUserIds s))
              then (User.id newAdmin,
                    RoomState.playAllowedUserIds s ++ [User.id newAdmin],
                    Database.setPermission (RoomState.id s) (User.id newAdmin) true (db w))
              else (User.id newAdmin, RoomState.playAllowedUserIds s, db w)
          | [] => (EmptyString, [], db w)
          end
        else (RoomState.adminId s, RoomState.playAllowedUserIds s, db w) in
      let allowed2 :=
        filter (fun id => existsb (fun u => String.eqb (User.id u) id) users1
                          || String.eqb id adminId1)
               allowed1 in
      let users2 :=
        map (fun u => User.withIsHost (String.eqb (User.id u) adminId1) u) users1 in
      let s' :=
        RoomState.withPlayAllowedUserIds allowed2
          (RoomState.withAdminId adminId1 (RoomState.withUsers users2 s)) in
      let w1 := saveState s' (setDb db1 w) in
      let w2 := broadcastGlobal (room_update s') w1 in
      match userLeaving with
      | Some u => broadcastGlobal (user_left u) w2
      | None => w2
      end
  end.

(** [saveState(mockState)] followed by the broadcast of the snapshot. *)
Definition commit (s : RoomState.t) (w : World) : World :=
  broadcastGlobal (room_update s) (saveState s w).

(** [handleServerEvent(event, payload)], where [serverNow] is
    [MockSocket.getServerTime()] and [userId] the payload's submitter. *)
Definition handleServerEvent (serverNow : Q) (c : Command) (userId : string)
    (w : World) : World :=
  match activeRoomId w with
  | None => w
  | Some roomId =>
      let s := loadState (localStorage w) roomId in
      let w0 := setMockState s w in
      match c with
      | sync_ping clientSendTime =>
          broadcastToLocal (sync_pong clientSendTime serverNow serverNow) w0

      | cmd_grantPlay targetUserId =>
          if isAdmin userId s then
            if negb (includes targetUserId (RoomState.playAllowedUserIds s)) then
              let s' :=
                RoomState.withPlayAllowedUserIds
                  (RoomState.playAllowedUserIds s ++ [targetUserId]) s in
              commit s'
                (setDb (Database.setPermission (RoomState.id s) targetUserId true (db w0)) w0)
            else w0
          else w0

      | cmd_revokePlay targetUserId =>
          if isAdmin userId s then
            if negb (String.eqb targetUserId (RoomState.adminId s)) then
              let s' :=
                RoomState.withPlayAllowedUserIds
                  (filter (fun id => negb (String.eqb id targetUserId))
                          (RoomState.playAllowedUserIds s)) s in
              commit s'
                (setDb (Database.setPermission (RoomState.id s) targetUserId false (db w0)) w0)
            else w0
          else w0

      | cmd_play =>
          if hasPermission userId s
             && negb (PlaybackState_eqb (RoomState.playbackState s) PLAYING) then
            let leadTime := 500 in
            let playAt := serverNow + leadTime in
            let s' :=
              RoomState.withPlayback (RoomState.currentTrackId s) PLAYING
                (Some (playAt - orZero (RoomState.pausedAtPosition s) * 1000))
                (RoomState.pausedAtPosition s) s in
            let db' :=
              match RoomState.currentTrackId s with
              | Some trackId =>
                  if String.eqb trackId EmptyString then db w0
                  else Database.logPlay (RoomState.id s) trackId userId (db w0)
              | None => db w0
              end in
            broadcastGlobal
              (play_scheduled (RoomState.currentTrackId s') playAt
                              (orZero (RoomState.pausedAtPosition s')))
              (commit s' (setDb db' w0))
          else w0

      | cmd_playSpecificTrack trackId =>
          if hasPermission userId s then
            if existsb (fun t => String.eqb (Track.id t) trackId) (RoomState.queue s) then
              let playAt := serverNow + 800 in
              let s' := RoomState.withPlayback (Some trackId) PLAYING (Some playAt) (Some 0) s in
              broadcastGlobal (play_scheduled (Some trackId) playAt 0)
                (commit s'
                   (setDb (Database.logPlay (RoomState.id s) trackId userId (db w0)) w0))
            else w0
          else w0

      | cmd_pause =>
          if hasPermission userId s
             && PlaybackState_eqb (RoomState.playbackState s) PLAYING then
            let pauseAt := serverNow in
            let elapsed :=
              match RoomState.startAtServerTime s with
              | Some startAt =>
                  if Qeq_bool startAt 0 then 0 else (pauseAt - startAt) / 1000
              | None => 0
              end in
            let s' :=
              RoomState.withPlayback (RoomState.currentTrackId s) PAUSED None (Some elapsed) s in
            broadcastGlobal (pause_sync pauseAt elapsed) (commit s' w0)
          else w0

      | cmd_seek position =>
          if hasPermission userId s then
            let seekAt := serverNow + 300 in
            let startAt' :=
              if PlaybackState_eqb (RoomState.playbackState s) PLAYING
              then Some (seekAt - position * 1000)
              else RoomState.startAtServerTime s in
            let s' :=
              RoomState.withPlayback (RoomState.currentTrackId s) (RoomState.playbackState s)
                startAt' (Some position) s in
            broadcastGlobal (seek_sync position seekAt) (commit s' w0)
          else w0

      | cmd_addTrack newTrack =>
          let s' := RoomState.withQueue (RoomState.queue s ++ [newTrack]) s in
          let db' :=
            match Track.type newTrack with
            | shared_file =>
                Database.addSong
                  (SongRecord.mk (Track.id newTrack) (Track.title newTrack)
                     (Track.artist newTrack) (Track.url newTrack)
                     (Track.duration newTrack) userId (Track.coverUrl newTrack)
                     shared_file (Track.fileId newTrack))
                  (db w0)
            | stream => db w0
            end in
          commit s' (setDb db' w0)

      | cmd_next =>
          if hasPermission userId s then
            let currentIndex :=
              findIndex (fun t => isCurrent (RoomState.currentTrackId s) (Track.id t))
                        (RoomState.queue s) in
            match at_index (RoomState.queue s) (currentIndex + 1) with
            | Some nextTrack =>
                commit
                  (RoomState.withPlayback (Some (Track.id nextTrack)) PAUSED None (Some 0) s)
                  w0
            | None => w0
            end
          else w0

      | other _ => w0
      end
  end.

(** [MockSocket.emit(event, payload)]: the handler runs only in a tab that
    holds a room state. *)
Definition emit (serverNow : Q) (c : Command) (userId : string) (w : World) : World :=
  match activeRoomId w, mockState w with
  | Some _, Some _ => handleServerEvent serverNow c userId w
  | _, _ => w
  end.

(** The operations on a room: join, leave and the commands. *)
Inductive Op : Type :=
  | join (userName roomId userId : string)
  | leave (userId : string)
  | command (serverNow : Q) (c : Command) (userId : string).

Definition step (o : Op) (w : World) : World :=
  match o with
  | join userName roomId userId => fst (connect userName roomId userId w)
  | leave userId => disconnect userId w
  | command serverNow c userId => emit serverNow c userId w
  end.

(** The room state the store holds for a room id: what the next operation
    on that room starts from. *)
Definition roomOf (w : World) (roomId : string) : RoomState.t :=
  loadState (localStorage w) roomId.

(** ** The room invariant *)

(** [x] is the id of a user in the room. *)
Definition present (s : RoomState.t) (x : string) : Prop :=
  In x (map User.id (RoomState.users s)).






(** ** Sample worlds *)

(** A tab before any join. *)
Definition emptyWorld : World := mkWorld None None (fun _ => None) Database.empty [].

Definition member (id : string) (host : bool) : User.t := User.mk id id host None.

(** Room R1 as stored: the queue of the seed room and the given users,
    admin, permitted ids and playback fields. *)
Definition roomR1 (users : list User.t) (adminId : string) (allowed : list string)
    (current : option string) (pb : PlaybackState) (startAt paused : option Q)
    : RoomState.t :=
  RoomState.mk "R1" "Room R1" users SAMPLE_TRACKS current pb startAt paused adminId allowed.

(** A tab attached to room R1 with the given stored state. *)
Definition worldOf (s : RoomState.t) : World :=
  mkWorld (Some "R1"%string) (Some s) (setItem "R1" s (fun _ => None)) Database.empty [].

(** Admin A alone in the room, paused at the start of the seed track. *)
Definition soloRoom : RoomState.t :=
  roomR1 [member "A" true] "A" ["A"%string] (Some "t1"%string) PAUSED None (Some 0).

(** Admin A with members B and C; A and C may play. *)
Definition trioRoom : RoomState.t :=
  roomR1 [member "A" true; member "B" false; member "C" false] "A"
         ["A"%string; "C"%string] (Some "t1"%string) PAUSED None (Some 0).

(** ** Reading the outcome of a command *)

(** The command was ignored: the handler reloaded [mockState] from the store
    and did nothing else, so that nothing was saved, written to the database
    or sent. *)
Definition ignored (roomId : string) (w w' : World) : Prop :=
  mockState w' = Some (roomOf w roomId)
  /\ activeRoomId w' = activeRoomId w
  /\ localStorage w' = localStorage w
  /\ db w' = db w
  /\ outbox w' = outbox w.

(** The events a command added to the outbox are [es], all of them sent with
    [broadcastGlobal]. *)
Definition sent (w w' : World) (es : list Event) : Prop :=
  outbox w' = outbox w ++ map (fun e => (Global, e)) es.

(** The snapshot a command saved is [s'], under the key of its room id. *)
Definition saved (w w' : World) (s' : RoomState.t) : Prop :=
  localStorage w' = setItem (RoomState.id s') s' (localStorage w)
  /\ mockState w' = Some s'.

(** Room R1 with admin A and member B, both permitted, playing the seed
    track since server time [startAt]. *)
Definition playingRoom (startAt : Q) : RoomState.t :=
  roomR1 [member "A" true; member "B" false] "A" ["A"%string; "B"%string]
         (Some "t1"%string) PLAYING (Some startAt) (Some 0).

(** The same room paused at position [p]. *)
Definition pausedRoom (p : Q) : RoomState.t :=
  roomR1 [member "A" true; member "B" false] "A" ["A"%string; "B"%string]
         (Some "t1"%string) PAUSED None (Some p).

(** The position, in seconds, that a room started at [startAt] has reached
    at server time [t]: the [elapsed] of the pause handler and of the
    client's [catchUpToLive]. *)
Definition elapsedAt (t startAt : Q) : Q := (t - startAt) / 1000.

(** The current track is the queue entry at index [i], the index
    [findIndex] reports: the first entry with the current track id. *)
Definition currentAt (s : RoomState.t) (i : nat) : Prop :=
  exists t,
    nth_error (RoomState.queue s) i = Some t
    /\ isCurrent (RoomState.currentTrackId s) (Track.id t) = true
    /\ forall j t', (j < i)%nat -> nth_error (RoomState.queue s) j = Some t' ->
                    isCurrent (RoomState.currentTrackId s) (Track.id t') = false.

(** No queue entry has the current track id. *)
Definition currentMissing (s : RoomState.t) : Prop :=
  forall t, In t (RoomState.queue s) ->
            isCurrent (RoomState.currentTrackId s) (Track.id t) = false.

(** The state [cmd:next] saves when it moves to the queue entry [t]. *)
Definition movedTo (t : Track.t) (s : RoomState.t) : RoomState.t :=
  RoomState.withPlayback (Some (Track.id t)) PAUSED None (Some 0) s.

(** Admin A alone, with a current track id that no queue entry has. *)
Definition strayRoom : RoomState.t :=
  roomR1 [member "A" true] "A" ["A"%string] (Some "gone"%string) PAUSED None (Some 0).

Definition track (id : string) : Track.t :=
  Track.mk id id "artist" "url" None 200 "cover" stream.

(** Admin A alone, with a queue of three tracks and the given current one. *)
Definition queueRoom (current : string) : RoomState.t :=
  RoomState.mk "R1" "Room R1" [member "A" true] [track "t1"; track "t2"; track "t3"]
               (Some current) PLAYING (Some 1000) (Some 0) "A" ["A"%string].

(** ** Reading the jitter and the offset of the clock engine *)

(** The jitter as a function of the round-trip times alone: [prev] is the
    rtt of the newest sample, if any, and [j] the jitter so far. *)
Fixpoint jitterFrom (prev : option Q) (j : Q) (rtts : list Q) : Q :=
  match rtts with
  | [] => j
  | r :: rest =>
      jitterFrom (Some r)
        (match prev with
         | Some q => j + (Qabs (r - q) - j) / 16
         | None => j
         end)
        rest
  end.

(** Every pong of the sequence has round-trip time [r]. *)
Definition constantRtt (r : Q) (ps : list Pong) : Prop :=
  forall p, In p ps -> pongRtt p == r.

(** The round-trip times are [a], [b], [a], [b], ... *)
Fixpoint alternates (a b : Q) (rtts : list Q) : Prop :=
  match rtts with
  | [] => True
  | r :: rest => r == a /\ alternates b a rest
  end.

Definition alternatingRtt (r1 r2 : Q) (ps : list Pong) : Prop :=
  alternates r1 r2 (map pongRtt ps).

(** Each round-trip time differs by [d] from the one before it, [q] being
    the one before the first. *)
Fixpoint steps (d q : Q) (rtts : list Q) : Prop :=
  match rtts with
  | [] => True
  | r :: rest => Qabs (r - q) == d /\ steps d r rest
  end.

(** [(15/16)^n], the weight the update leaves, after [n] pongs, on what the
    jitter was. *)
Fixpoint decay (n : nat) : Q :=
  match n with
  | O => 1
  | S k => decay k * (15 # 16)
  end.

(** Over the sequences of pongs that satisfy [good], fed to a new manager,
    the jitter converges to [limit] as the sequences grow. *)
Definition jitterConvergesTo (good : list Pong -> Prop) (limit : Q) : Prop :=
  forall eps, 0 < eps ->
    exists N, forall ps, (N <= length ps)%nat -> good ps ->
      Qabs (SyncManager.jitter (ingestAll SyncManager.init ps) - limit) < eps.

(** A pong sent at [sent] that took [rtt] to come back, the client's clock
    being [offset] behind the server's and the two legs equally long. *)
Definition pongAt (sent rtt offset : Q) : Pong :=
  mkPong sent (sent + rtt / 2 + offset) (sent + rtt / 2 + offset) (sent + rtt).

(** [n] pongs, two seconds apart, whose round-trip times are 0, 17, 0, 17, ... *)
Definition zigzag (n : nat) : list Pong :=
  map (fun i => pongAt (inject_Z (2000 * Z.of_nat i)) (if Nat.even i then 0 else 17) 0)
      (seq 0 n).

(** The manager has an established offset: it has processed a pong, and
    [currentOffset] is the estimate that came of it.  The class keeps no flag
    for this; [processPong] tests [currentOffset] against 0. *)
Definition established (m : SyncManager.t) : Prop := SyncManager.samples m <> [].

(** ** Reading the window of the clock engine *)

(** The sample [processPong] stores for a pong. *)
Definition sampleOf (p : Pong) : SyncSample.t :=
  SyncSample.mk (pongRtt p) (pongOffset p) (clientReceiveTime p).

(** The newest [n] elements of a list, in order. *)
Definition lastN {A : Type} (n : nat) (l : list A) : list A :=
  skipn (length l - n) l.

(** The statistics [processPong] returns for a pong. *)
Definition statsOf (m : SyncManager.t) (p : Pong) : AudioStats.t :=
  snd (SyncManager.processPong (clientSendTime p) (serverReceiveTime p)
                               (serverReplyTime p) (clientReceiveTime p) m).

(** The window after a pong and the sample the min-filter picks in it. *)
Definition windowAfter (m : SyncManager.t) (p : Pong) : list SyncSample.t :=
  SyncManager.pushSample (SyncManager.samples m) (sampleOf p).

Definition bestAfter (m : SyncManager.t) (p : Pong) : SyncSample.t :=
  SyncManager.bestSample (hd (sampleOf p) (windowAfter m p)) (windowAfter m p).

(** Over the pongs [ps], fed one after the other to [m], the min-filter
    target is [T] each time. *)
Fixpoint targetStays (T : Q) (m : SyncManager.t) (ps : list Pong) : Prop :=
  match ps with
  | [] => True
  | p :: rest => targetOffsetOf m p == T /\ targetStays T (ingest m p) rest
  end.

(** [(85/100)^n], the share of the offset error that [n] slews leave. *)
Fixpoint shrink (n : nat) : Q :=
  match n with
  | O => 1
  | S k => shrink k * (85 # 100)
  end.

(** Every pong of the sequence measures the raw offset [O]. *)
Definition measuresOffset (O : Q) (ps : list Pong) : Prop :=
  forall p, In p ps -> pongOffset p == O.

(** ** Further invariants of a stored room *)

(** The playback fields agree: the room is PAUSED or PLAYING, and only a
    PLAYING room has a start time (a PAUSED room has none). *)
Definition playbackInvariant (s : RoomState.t) : Prop :=
  RoomState.playbackState s <> BUFFERING
  /\ (RoomState.startAtServerTime s <> None -> RoomState.playbackState s = PLAYING).

(** The current track is one of the queue. *)
Definition currentInQueue (s : RoomState.t) : Prop :=
  exists t, In t (RoomState.queue s) /\ RoomState.currentTrackId s = Some (Track.id t).


(** Every snapshot is stored under its own room id. *)
Definition wellKeyed (w : World) : Prop :=
  forall r, RoomState.id (roomOf w r) = r.

(** The commands whose handlers start with [hasPermission()]. *)
Definition needsPermission (c : Command) : bool :=
  match c with
  | cmd_play | cmd_playSpecificTrack _ | cmd_pause | cmd_seek _ | cmd_next => true
  | _ => false
  end.

(** The key [setPermission] builds for a room and a user. *)
Definition permissionKey (roomId userId : string) : string :=
  (roomId ++ "_" ++ userId)%string.

(** Every permission record sits under the key of its room and user, as the
    records [setPermission] writes do. *)
Definition permissionsKeyed (d : Database.t) : Prop :=
  forall p, In p (Database.room_permissions d) ->
            PermissionRecord.id p
            = permissionKey (PermissionRecord.roomId p) (PermissionRecord.userId p).

(** Two snapshots with the same queue and playback fields: what join and
    leave, which assign users, admin and permitted ids only, keep of a room. *)
Definition sameMedia (s s' : RoomState.t) : Prop :=
  RoomState.id s' = RoomState.id s
  /\ RoomState.name s' = RoomState.name s
  /\ RoomState.queue s' = RoomState.queue s
  /\ RoomState.currentTrackId s' = RoomState.currentTrackId s
  /\ RoomState.playbackState s' = RoomState.playbackState s
  /\ RoomState.startAtServerTime s' = RoomState.startAtServerTime s
  /\ RoomState.pausedAtPosition s' = RoomState.pausedAtPosition s.

(** ** Events and the client's scheduler *)

(** The event is a snapshot of the room. *)
Definition isSnapshot (e : Event) : bool :=
  match e with
  | room_update _ => true
  | _ => false
  end.

(** What the client does with its audio element on an event. *)
Inductive PlayerAction : Type :=
  | doNothing
  | playFrom (position : Q)
  | playAfter (delayMs position : Q).

(** The listener of play:scheduled; [serverTime] is the client's
    [syncManager.getEstimatedServerTime()] and [hasAudio] whether the audio
    element exists. *)
Definition onPlayScheduled (hasAudio : bool) (serverTime playAtServerTime startOffset : Q)
    : PlayerAction :=
  if negb hasAudio then doNothing
  else
    let delayMs := playAtServerTime - serverTime in
    if Qle_bool delayMs 20 then
      let driftSeconds := (serverTime - playAtServerTime) / 1000 in
      let startPos := Qmax 0 (startOffset + driftSeconds) in
      playFrom startPos
    else playAfter delayMs startOffset.

(** [catchUpToLive(startAtServerTime)], run when a snapshot of a PLAYING room
    makes the client load its track. *)
Definition catchUpToLive (hasAudio : bool) (serverNow startAtServerTime : Q) : PlayerAction :=
  if negb hasAudio then doNothing
  else
    let elapsed := (serverNow - startAtServerTime) / 1000 in
    if Qltb 0 elapsed then playFrom elapsed else doNothing.

(** ** Lemmas on the helpers *)

Lemma includes_In (x : string) (l : list string) : includes x l = true <-> In x l.
Proof.
  unfold includes. rewrite existsb_exists. split.
  - intros [y [Hy E]]. apply String.eqb_eq in E. now subst.
  - intros H. exists x. split; [assumption | apply String.eqb_refl].
Qed.

Lemma includes_not_In (x : string) (l : list string) : includes x l = false <-> ~ In x l.
Proof.
  rewrite <- includes_In. destruct (includes x l); split; congruence.
Qed.




Lemma existsb_user_id (us : list User.t) (x : string) :
  existsb (fun u => String.eqb (User.id u) x) us = true <-> In x (map User.id us).
Proof.
  rewrite existsb_exists, in_map_iff. split.
  - intros [u [Hu E]]. apply String.eqb_eq in E. now exists u.
  - intros [u [E Hu]]. exists u. split; [assumption | now apply String.eqb_eq].
Qed.

Lemma map_id_withIsHost (f : User.t -> bool) (us : list User.t) :
  map User.id (map (fun u => User.withIsHost (f u) u) us) = map User.id us.
Proof.
  rewrite map_map. apply map_ext. reflexivity.
Qed.

Lemma In_filter_others (us : list User.t) (userId x : string) :
  In x (map User.id (filter (fun u => negb (String.eqb (User.id u) userId)) us))
  <-> In x (map User.id us) /\ x <> userId.
Proof.
  rewrite !in_map_iff. split.
  - intros [u [E Hu]]. apply filter_In in Hu. destruct Hu as [Hu Hne].
    apply negb_true_iff, String.eqb_neq in Hne. subst x. split; [now exists u | assumption].
  - intros [[u [E Hu]] Hne]. exists u. split; [assumption|].
    apply filter_In. split; [assumption|].
    apply negb_true_iff, String.eqb_neq. now subst x.
Qed.

(** The fields of a room state after assignments, and nothing else. *)
Ltac room_fields :=
  cbn [RoomState.id RoomState.name RoomState.users RoomState.queue
       RoomState.currentTrackId RoomState.playbackState RoomState.startAtServerTime
       RoomState.pausedAtPosition RoomState.adminId RoomState.playAllowedUserIds
       RoomState.withUsers RoomState.withQueue RoomState.withAdminId
       RoomState.withPlayAllowedUserIds RoomState.withPlayback].

Lemma kept_In (us : list User.t) (adminId : string) (l : list string) (x : string) :
  In x (filter (fun id => existsb (fun u => String.eqb (User.id u) id) us
                          || String.eqb id adminId) l)
  <-> In x l /\ (In x (map User.id us) \/ x = adminId).
Proof.
  now rewrite filter_In, orb_true_iff, existsb_user_id, String.eqb_eq.
Qed.

Lemma loadState_setItem (k : string) (v : RoomState.t) (ls : string -> option RoomState.t)
    (r : string) :
  loadState (setItem k v ls) r = if String.eqb r k then v else loadState ls r.
Proof.
  unfold loadState, setItem. destruct (String.eqb r k); reflexivity.
Qed.

(** What an operation leaves in the store is what it found there, but for
    the one snapshot it saved. *)
Ltac storage_cases r :=
  unfold roomOf; simpl;
  repeat match goal with
  | |- context [loadState (setItem ?k ?v ?ls) r] =>
      rewrite (loadState_setItem k v ls r);
      destruct (String.eqb r k); simpl
  end.







Lemma worldOf_rooms (P : RoomState.t -> Prop) (s : RoomState.t) :
  P s -> (forall r, P (loadState (fun _ => None) r)) -> forall r, P (roomOf (worldOf s) r).
Proof.
  intros Hs Hd r. unfold roomOf, worldOf. simpl. rewrite loadState_setItem.
  destruct (String.eqb r "R1"); [assumption | apply Hd].
Qed.


(** ** C1: the room invariant *)


(** The same through the user interface alone: A joins, B joins, A grants B,
    B leaves (the list is pruned, the database row stays), C joins, and the
    merge of the stored permissions brings B's id back. *)
Lemma room_invariant_broken_by_rejoin :
  let ops := [ join "Ann" "R1" "A"; join "Bob" "R1" "B";
               command 0 (cmd_grantPlay "B") "A"; leave "B" ] in
  let w := fold_left (fun w o => step o w) ops emptyWorld in
  RoomState.playAllowedUserIds (roomOf w "R1") = ["A"%string]
  /\ RoomState.playAllowedUserIds (roomOf (step (join "Cy" "R1" "C") w) "R1")
     = ["A"%string; "B"%string]
  /\ map User.id (RoomState.users (roomOf (step (join "Cy" "R1" "C") w) "R1"))
     = ["A"%string; "C"%string].
Proof. vm_compute. repeat split. Qed.



Lemma ignored_same_rooms (roomId : string) (w w' : World) :
  ignored roomId w w' -> forall r, roomOf w' r = roomOf w r.
Proof.
  intros (_ & _ & E & _) r. unfold roomOf. now rewrite E.
Qed.

Lemma ignored_setMockState (roomId : string) (w : World) :
  ignored roomId w (setMockState (roomOf w roomId) w).
Proof. repeat split. Qed.

Lemma saved_roomOf (w w' : World) (s' : RoomState.t) :
  saved w w' s' -> roomOf w' (RoomState.id s') = s'.
Proof.
  intros [E _]. unfold roomOf. rewrite E, loadState_setItem.
  now rewrite String.eqb_refl.
Qed.

Lemma count_occ_without (targetUserId : string) (l : list string) (x : string) :
  count_occ string_dec (filter (fun id => negb (String.eqb id targetUserId)) l) x
  = if string_dec x targetUserId then 0%nat else count_occ string_dec l x.
Proof.
  induction l as [|y l IH]; simpl.
  - now destruct (string_dec x targetUserId).
  - destruct (String.eqb_spec y targetUserId) as [->|Hy]; simpl; rewrite IH;
      repeat match goal with
             | |- context [string_dec ?a ?b] => destruct (string_dec a b)
             end; congruence.
Qed.

(** ** C8: grantPlay and revokePlay *)

(** C8: a grantPlay or revokePlay whose submitter is not the admin is
    ignored, and so is a revokePlay whose target is the admin id; granting an
    id that is permitted already is ignored, and revoking an id that is not
    permitted leaves the permitted list as it was; a grant that is carried
    out appends the target id and nothing else, and a revoke that is carried
    out removes the target id and nothing else. *)
Theorem grant_revoke_admin_only (serverNow : Q) (userId targetUserId roomId : string)
    (w : World) :
  activeRoomId w = Some roomId ->
  let s := roomOf w roomId in
  let wg := handleServerEvent serverNow (cmd_grantPlay targetUserId) userId w in
  let wr := handleServerEvent serverNow (cmd_revokePlay targetUserId) userId w in
  let allowed := RoomState.playAllowedUserIds in
  (userId <> RoomState.adminId s -> ignored roomId w wg /\ ignored roomId w wr)
  /\ (targetUserId = RoomState.adminId s -> ignored roomId w wr)
  /\ (In targetUserId (allowed s) -> ignored roomId w wg)
  /\ (~ In targetUserId (allowed s) ->
      exists s', mockState wr = Some s' /\ allowed s' = allowed s)
  /\ (userId = RoomState.adminId s -> ~ In targetUserId (allowed s) ->
      let s' := RoomState.withPlayAllowedUserIds (allowed s ++ [targetUserId]) s in
      saved w wg s' /\ sent w wg [room_update s'])
  /\ (userId = RoomState.adminId s -> targetUserId <> RoomState.adminId s ->
      exists s',
        saved w wr s' /\ sent w wr [room_update s']
        /\ s' = RoomState.withPlayAllowedUserIds (allowed s') s
        /\ (forall x, In x (allowed s') <-> In x (allowed s) /\ x <> targetUserId)
        /\ (forall x, count_occ string_dec (allowed s') x
                      = if string_dec x targetUserId then 0%nat
                        else count_occ string_dec (allowed s) x)).
Proof.
  intros Eroom s wg wr allowed.
  subst wg wr allowed. unfold handleServerEvent. rewrite Eroom. fold (roomOf w roomId). fold s.
  unfold isAdmin.
  assert (Hfilter : ~ In targetUserId (RoomState.playAllowedUserIds s) ->
                    filter (fun id => negb (String.eqb id targetUserId))
                           (RoomState.playAllowedUserIds s)
                    = RoomState.playAllowedUserIds s).
  { intros Hn. apply forallb_filter_id, forallb_forall. intros x Hx.
    apply negb_true_iff, String.eqb_neq. congruence. }
  assert (Hadm : forall a b : World, userId <> RoomState.adminId s ->
                 (if String.eqb (RoomState.adminId s) userId then a else b) = b).
  { intros a b Hna. apply not_eq_sym, String.eqb_neq in Hna. now rewrite Hna. }
  refine (conj _ (conj _ (conj _ (conj _ (conj _ _))))).
  - intros Hna. rewrite !Hadm by assumption. split; apply ignored_setMockState.
  - intros ->. destruct (String.eqb (RoomState.adminId s) userId);
      rewrite ?String.eqb_refl; apply ignored_setMockState.
  - intros Hin. apply includes_In in Hin. rewrite Hin.
    destruct (String.eqb (RoomState.adminId s) userId); apply ignored_setMockState.
  - intros Hn.
    destruct (String.eqb (RoomState.adminId s) userId);
      [destruct (negb (String.eqb targetUserId (RoomState.adminId s)))|].
    all: eexists; (split; [reflexivity|]); try reflexivity.
    now apply Hfilter.
  - intros -> Hn. rewrite String.eqb_refl.
    apply includes_not_In in Hn. rewrite Hn.
    split; [split|]; reflexivity.
  - intros -> Hne. rewrite String.eqb_refl.
    apply String.eqb_neq in Hne. rewrite Hne. simpl.
    eexists. split; [split; reflexivity|]. split; [reflexivity|].
    split; [reflexivity|]. split.
    + intros x. simpl. rewrite filter_In, negb_true_iff, String.eqb_neq. reflexivity.
    + intros x. apply count_occ_without.
Qed.

Lemma grant_revoke_admin_only_witness :
  let w := worldOf trioRoom in
  ignored "R1" w (handleServerEvent 0 (cmd_grantPlay "B") "B" w)
  /\ ignored "R1" w (handleServerEvent 0 (cmd_revokePlay "A") "A" w)
  /\ ignored "R1" w (handleServerEvent 0 (cmd_grantPlay "C") "A" w)
  /\ mockState (handleServerEvent 0 (cmd_grantPlay "B") "A" w)
     = Some (RoomState.withPlayAllowedUserIds ["A"; "C"; "B"]%string trioRoom)
  /\ (forall x, In x (RoomState.playAllowedUserIds
                        (roomOf (handleServerEvent 0 (cmd_revokePlay "C") "A" w) "R1"))
                <-> x = "A"%string).
Proof.
  intros w.
  pose proof (grant_revoke_admin_only 0 "B" "B" "R1" w eq_refl) as (Hb & _).
  pose proof (grant_revoke_admin_only 0 "A" "A" "R1" w eq_refl) as (_ & Ha & _).
  pose proof (grant_revoke_admin_only 0 "A" "C" "R1" w eq_refl) as (_ & _ & Hc & _ & _ & Hr).
  pose proof (grant_revoke_admin_only 0 "A" "B" "R1" w eq_refl) as (_ & _ & _ & _ & Hg & _).
  split; [apply Hb; discriminate|].
  split; [apply Ha; reflexivity|].
  split; [apply Hc; simpl; tauto|].
  split.
  - apply Hg; [reflexivity|]. simpl. intros [E|[E|[]]]; discriminate.
  - destruct Hr as (s' & Hsaved & _ & _ & Hin & _); [reflexivity | discriminate |].
    intros x. replace (roomOf _ "R1") with s'.
    + rewrite Hin. simpl. split.
      * intros [[<-|[<-|[]]] Hne]; [reflexivity | now elim Hne].
      * intros ->. split; [now left | discriminate].
    + symmetry. apply (saved_roomOf w _ s') in Hsaved as E.
      destruct Hsaved as [_ Hm]. vm_compute in Hm. injection Hm as <-. exact E.
Defined.

(** ** C9: play that is ignored *)

(** C9: a play on a room that is PLAYING already, or from a submitter who is
    not permitted, is ignored: nothing is saved, written or sent, and every
    stored room, with its playback state, start time, paused position and
    current track, is as before. *)
Theorem play_ignored (serverNow : Q) (userId roomId : string) (w : World) :
  activeRoomId w = Some roomId ->
  let s := roomOf w roomId in
  let w' := handleServerEvent serverNow cmd_play userId w in
  RoomState.playbackState s = PLAYING \/ ~ In userId (RoomState.playAllowedUserIds s) ->
  ignored roomId w w'
  /\ (forall r, roomOf w' r = roomOf w r)
  /\ (forall e, In e (outbox w') -> In e (outbox w)).
Proof.
  intros Eroom s w' Hcase.
  assert (Hw : w' = setMockState s w).
  { subst w'. unfold handleServerEvent. rewrite Eroom. fold (roomOf w roomId). fold s.
    destruct Hcase as [Hp|Hn].
    - rewrite Hp. simpl. now rewrite andb_false_r.
    - apply includes_not_In in Hn. unfold hasPermission. now rewrite Hn. }
  rewrite Hw. split; [apply ignored_setMockState|]. split.
  - intros r. reflexivity.
  - intros e He. exact He.
Qed.

Lemma play_ignored_witness :
  ignored "R1" (worldOf (playingRoom 1000))
          (handleServerEvent 2000 cmd_play "A" (worldOf (playingRoom 1000)))
  /\ ignored "R1" (worldOf trioRoom) (handleServerEvent 2000 cmd_play "B" (worldOf trioRoom)).
Proof.
  split.
  - apply (play_ignored 2000 "A" "R1" (worldOf (playingRoom 1000)) eq_refl).
    left. reflexivity.
  - apply (play_ignored 2000 "B" "R1" (worldOf trioRoom) eq_refl).
    right. simpl. intros [E|[E|[]]]; discriminate.
Defined.

(** ** C6: continuity of play *)

Lemma orZero_value (p : Q) : orZero (Some p) == p.
Proof.
  unfold orZero. destruct (Qeq_bool p 0) eqn:E; [|reflexivity].
  apply Qeq_bool_iff in E. now rewrite E.
Qed.

(** C6: a play from a permitted user at server time [serverNow], on a room
    that is not PLAYING and is paused at position [p], stores the start time
    [(serverNow + 500) - p * 1000], so that at the execution instant
    [serverNow + 500] the elapsed position is [p]; the room becomes PLAYING,
    and the play:scheduled event that follows the snapshot carries that
    instant and the start offset [p]. *)
Theorem play_continuity (serverNow p : Q) (userId roomId : string) (w : World) :
  activeRoomId w = Some roomId ->
  let s := roomOf w roomId in
  let w' := handleServerEvent serverNow cmd_play userId w in
  In userId (RoomState.playAllowedUserIds s) ->
  RoomState.playbackState s <> PLAYING ->
  RoomState.pausedAtPosition s = Some p ->
  let playAt := serverNow + 500 in
  exists s' startAt startOffset,
    saved w w' s'
    /\ s' = RoomState.withPlayback (RoomState.currentTrackId s) PLAYING (Some startAt)
                                   (Some p) s
    /\ startAt == playAt - p * 1000
    /\ (playAt - startAt) / 1000 == p
    /\ sent w w' [room_update s';
                  play_scheduled (RoomState.currentTrackId s) playAt startOffset]
    /\ startOffset == p.
Proof.
  intros Eroom s w' Hperm Hstate Hpaused playAt.
  subst w'. unfold handleServerEvent. rewrite Eroom. fold (roomOf w roomId). fold s.
  apply includes_In in Hperm. unfold hasPermission. rewrite Hperm.
  assert (Hnp : PlaybackState_eqb (RoomState.playbackState s) PLAYING = false)
    by (destruct (RoomState.playbackState s); [reflexivity | now elim Hstate | reflexivity]).
  rewrite Hnp. simpl. rewrite Hpaused.
  pose proof (orZero_value p) as Hz.
  eexists _, (serverNow + 500 - orZero (Some p) * 1000), (orZero (Some p)).
  split; [split; reflexivity|]. split; [reflexivity|].
  split; [subst playAt; now rewrite Hz|].
  split; [subst playAt; rewrite Hz; field|].
  split; [unfold sent; simpl; now rewrite <- app_assoc | exact Hz].
Qed.

Lemma play_continuity_witness :
  exists s' startAt startOffset,
    saved (worldOf (pausedRoom 10)) (handleServerEvent 0 cmd_play "A" (worldOf (pausedRoom 10))) s'
    /\ RoomState.startAtServerTime s' = Some startAt
    /\ startAt == -9500
    /\ (500 - startAt) / 1000 == 10
    /\ startOffset == 10.
Proof.
  destruct (play_continuity 0 10 "A" "R1" (worldOf (pausedRoom 10)) eq_refl)
    as (s' & startAt & startOffset & Hsaved & Hs' & Hstart & Hel & _ & Hoff).
  - simpl. now left.
  - discriminate.
  - reflexivity.
  - exists s', startAt, startOffset.
    split; [exact Hsaved|]. split; [now rewrite Hs'|].
    split; [rewrite Hstart; reflexivity|].
    split; [setoid_replace (500 - startAt) with (0 + 500 - startAt) by ring; exact Hel|].
    exact Hoff.
Defined.

(** ** C5: seek while playing *)

(** C5: a seek to [position] from a permitted user at server time
    [serverNow], on a room that is PLAYING, stores the start time
    [(serverNow + 300) - position * 1000] and the paused position [position];
    at every instant [t] the elapsed position of the room is then [position]
    plus the seconds from the execution instant [serverNow + 300] to [t]; the
    seek:sync event that follows the snapshot carries the position and that
    instant. *)
Theorem seek_while_playing (serverNow position : Q) (userId roomId : string) (w : World) :
  activeRoomId w = Some roomId ->
  let s := roomOf w roomId in
  let w' := handleServerEvent serverNow (cmd_seek position) userId w in
  In userId (RoomState.playAllowedUserIds s) ->
  RoomState.playbackState s = PLAYING ->
  let seekAt := serverNow + 300 in
  let startAt := seekAt - position * 1000 in
  let s' := RoomState.withPlayback (RoomState.currentTrackId s) PLAYING (Some startAt)
                                   (Some position) s in
  saved w w' s'
  /\ sent w w' [room_update s'; seek_sync position seekAt]
  /\ forall t, elapsedAt t startAt == position + (t - seekAt) / 1000.
Proof.
  intros Eroom s w' Hperm Hplaying seekAt startAt s'.
  subst w'. unfold handleServerEvent. rewrite Eroom. fold (roomOf w roomId). fold s.
  apply includes_In in Hperm. unfold hasPermission. rewrite Hperm, Hplaying. simpl.
  split; [split; reflexivity|].
  split; [unfold sent; simpl; now rewrite <- app_assoc|].
  intros t. unfold elapsedAt, startAt. field.
Qed.

Lemma seek_while_playing_witness :
  let w' := handleServerEvent 2000 (cmd_seek 42) "B" (worldOf (playingRoom 1000)) in
  RoomState.startAtServerTime (roomOf w' "R1") = Some (2000 + 300 - 42 * 1000)
  /\ forall t, elapsedAt t (2000 + 300 - 42 * 1000) == 42 + (t - (2000 + 300)) / 1000.
Proof.
  intros w'.
  destruct (seek_while_playing 2000 42 "B" "R1" (worldOf (playingRoom 1000)) eq_refl)
    as (Hsaved & _ & Hel).
  - simpl. right. now left.
  - reflexivity.
  - split; [|exact Hel].
    apply saved_roomOf in Hsaved. simpl in Hsaved. subst w'. now rewrite Hsaved.
Defined.

(** ** C3: next *)

Lemma findIndex_lower {A : Type} (p : A -> bool) (l : list A) : (-1 <= findIndex p l)%Z.
Proof.
  induction l as [|x l IH]; simpl; [lia|].
  destruct (p x); [lia|]. destruct (Z.ltb_spec (findIndex p l) 0); lia.
Qed.

Lemma findIndex_missing {A : Type} (p : A -> bool) (l : list A) :
  (forall x, In x l -> p x = false) -> findIndex p l = (-1)%Z.
Proof.
  induction l as [|x l IH]; simpl; intros H; [reflexivity|].
  rewrite (H x) by now left. rewrite IH by (intros y Hy; apply H; now right).
  reflexivity.
Qed.

Lemma findIndex_first {A : Type} (p : A -> bool) (l : list A) (i : nat) (x : A) :
  nth_error l i = Some x -> p x = true ->
  (forall j y, (j < i)%nat -> nth_error l j = Some y -> p y = false) ->
  findIndex p l = Z.of_nat i.
Proof.
  revert i. induction l as [|h l IH]; intros i Hi Hp Hbefore.
  - destruct i; discriminate.
  - destruct i as [|i]; simpl in *.
    + injection Hi as ->. now rewrite Hp.
    + rewrite (Hbefore 0%nat h) by (lia || reflexivity).
      rewrite (IH i Hi Hp).
      * destruct (Z.ltb_spec (Z.of_nat i) 0); lia.
      * intros j y Hj Hy. apply (Hbefore (S j) y); [lia | exact Hy].
Qed.

Lemma at_index_succ {A : Type} (l : list A) (i : nat) :
  at_index l (Z.of_nat i + 1) = nth_error l (S i).
Proof.
  unfold at_index. destruct (Z.ltb_spec (Z.of_nat i + 1) 0); [lia|].
  f_equal. lia.
Qed.

(** C3, as stated, fails: in room R1 the current track id is "gone", which
    no queue entry has; [cmd:next] from the permitted user A is not ignored
    but makes the first queue entry, "t1", the current track. *)
Lemma next_with_missing_track_moves :
  let w := worldOf strayRoom in
  let w' := handleServerEvent 0 cmd_next "A" w in
  currentMissing strayRoom
  /\ In "A"%string (RoomState.playAllowedUserIds strayRoom)
  /\ RoomState.currentTrackId (roomOf w' "R1") = Some "t1"%string
  /\ ~ ignored "R1" w w'.
Proof.
  intros w w'. split; [|split; [|split]].
  - intros t [<-|[]]. reflexivity.
  - now left.
  - reflexivity.
  - intros (_ & _ & _ & _ & Hout). vm_compute in Hout. discriminate Hout.
Qed.

(** C3, amended: [cmd:next] from a permitted user, when the current track is
    the queue entry at index [i], moves to the entry at index [i + 1]: the
    room is PAUSED at position 0 with no start time, and the snapshot is
    saved and sent; with no entry at [i + 1] (no wraparound) the command is
    ignored.  When no queue entry has the current track id, the index found
    is -1 and the command moves in the same way to the first queue entry; it
    is ignored only when the queue is empty. *)
Theorem next_track (serverNow : Q) (userId roomId : string) (w : World) :
  activeRoomId w = Some roomId ->
  let s := roomOf w roomId in
  let w' := handleServerEvent serverNow cmd_next userId w in
  In userId (RoomState.playAllowedUserIds s) ->
  (forall i, currentAt s i ->
     match nth_error (RoomState.queue s) (S i) with
     | Some nextTrack =>
         saved w w' (movedTo nextTrack s) /\ sent w w' [room_update (movedTo nextTrack s)]
     | None => ignored roomId w w'
     end)
  /\ (currentMissing s ->
      match RoomState.queue s with
      | first :: _ =>
          saved w w' (movedTo first s) /\ sent w w' [room_update (movedTo first s)]
      | [] => ignored roomId w w'
      end).
Proof.
  intros Eroom s w' Hperm.
  subst w'. unfold handleServerEvent. rewrite Eroom. fold (roomOf w roomId). fold s.
  apply includes_In in Hperm. unfold hasPermission. rewrite Hperm.
  split.
  - intros i (t & Hi & Hcur & Hbefore).
    rewrite (findIndex_first _ _ i t Hi Hcur Hbefore), at_index_succ.
    destruct (nth_error (RoomState.queue s) (S i)) as [nextTrack|].
    + split; [split|]; reflexivity.
    + apply ignored_setMockState.
  - intros Hmissing. rewrite (findIndex_missing _ _ Hmissing).
    change (-1 + 1)%Z with 0%Z. unfold at_index. simpl.
    destruct (RoomState.queue s) as [|first rest]; simpl.
    + apply ignored_setMockState.
    + split; [split|]; reflexivity.
Qed.

Lemma next_track_witness :
  RoomState.currentTrackId
    (roomOf (handleServerEvent 0 cmd_next "A" (worldOf (queueRoom "t2"))) "R1")
  = Some "t3"%string
  /\ ignored "R1" (worldOf (queueRoom "t3"))
             (handleServerEvent 0 cmd_next "A" (worldOf (queueRoom "t3")))
  /\ RoomState.currentTrackId
       (roomOf (handleServerEvent 0 cmd_next "A" (worldOf (queueRoom "none"))) "R1")
     = Some "t1"%string.
Proof.
  assert (Hperm : forall c, In "A"%string (RoomState.playAllowedUserIds (queueRoom c)))
    by (intros c; now left).
  split; [|split].
  - pose proof (proj1 (next_track 0 "A" "R1" (worldOf (queueRoom "t2")) eq_refl (Hperm _))
                      1%nat) as H.
    simpl in H. destruct H as [[Hsaved _] _].
    + exists (track "t2"). split; [reflexivity|]. split; [reflexivity|].
      intros j t' Hj Ht'. assert (j = 0%nat) as -> by lia.
      injection Ht' as <-. reflexivity.
    + unfold roomOf. rewrite Hsaved. reflexivity.
  - pose proof (proj1 (next_track 0 "A" "R1" (worldOf (queueRoom "t3")) eq_refl (Hperm _))
                      2%nat) as H.
    simpl in H. apply H.
    exists (track "t3"). split; [reflexivity|]. split; [reflexivity|].
    intros j t' Hj Ht'. destruct j as [|[|j]]; [| |lia]; injection Ht' as <-; reflexivity.
  - pose proof (proj2 (next_track 0 "A" "R1" (worldOf (queueRoom "none")) eq_refl (Hperm _)))
      as H.
    simpl in H. destruct H as [[Hsaved _] _].
    + intros t [<-|[<-|[<-|[]]]]; reflexivity.
    + unfold roomOf. rewrite Hsaved. reflexivity.
Defined.

(** ** C7: departure of the admin *)

(** C7: when the admin leaves a room in which members remain, the first of
    them in the stored order becomes admin and is permitted (its id is
    appended to the list unless it is there already); the id of the admin who
    left is permitted no more; the permitted list keeps exactly the ids it
    had, with the new admin's, that belong to a remaining user or are the
    new admin's; and the host flags follow the new admin id. *)
Theorem admin_departure (userId roomId : string) (w : World)
    (newAdmin : User.t) (rest : list User.t) :
  activeRoomId w = Some roomId ->
  let s := roomOf w roomId in
  let w' := disconnect userId w in
  userId = RoomState.adminId s ->
  filter (fun u => negb (String.eqb (User.id u) userId)) (RoomState.users s)
    = newAdmin :: rest ->
  exists s',
    saved w w' s'
    /\ In (Global, room_update s') (outbox w')
    /\ RoomState.adminId s' = User.id newAdmin
    /\ map User.id (RoomState.users s') = map User.id (newAdmin :: rest)
    /\ (forall u, In u (RoomState.users s') ->
                  User.isHost u = String.eqb (User.id u) (User.id newAdmin))
    /\ In (User.id newAdmin) (RoomState.playAllowedUserIds s')
    /\ ~ In userId (RoomState.playAllowedUserIds s')
    /\ (forall x, In x (RoomState.playAllowedUserIds s')
                  <-> (In x (RoomState.playAllowedUserIds s) \/ x = User.id newAdmin)
                      /\ (present s' x \/ x = User.id newAdmin)).
Proof.
  intros Eroom s w' Hadmin Hrest.
  assert (Hothers : forall x, In x (map User.id (newAdmin :: rest))
                              <-> In x (map User.id (RoomState.users s)) /\ x <> userId).
  { intros x. rewrite <- Hrest. apply In_filter_others. }
  assert (Hnew : User.id newAdmin <> userId).
  { apply (Hothers (User.id newAdmin)). now left. }
  subst w'. unfold disconnect. rewrite Eroom. fold (roomOf w roomId). fold s.
  rewrite Hrest, <- Hadmin, String.eqb_refl.
  destruct (includes (User.id newAdmin) (RoomState.playAllowedUserIds s)) eqn:Einc;
    simpl negb; cbv iota beta.
  all: set (users2 := map (fun u => User.withIsHost _ u) (newAdmin :: rest)).
  all: assert (Hids : map User.id users2 = map User.id (newAdmin :: rest))
         by apply map_id_withIsHost.
  all: assert (Hhost : forall u, In u users2 ->
                                 User.isHost u = String.eqb (User.id u) (User.id newAdmin))
         by (intros u Hu; apply in_map_iff in Hu; destruct Hu as (u0 & <- & _); reflexivity).
  all: clearbody users2.
  all: match goal with
       | |- context [saveState ?st _] => exists st
       end.
  all: split; [destruct (find _ (RoomState.users s)); split; reflexivity|].
  all: split; [destruct (find _ (RoomState.users s)); simpl;
               rewrite ?in_app_iff; simpl; tauto|].
  all: split; [reflexivity|].
  all: split; [exact Hids|].
  all: split; [exact Hhost|].
  all: unfold present; room_fields; rewrite Hids.
  all: split; [apply kept_In; split; [|now right]|].
  all: try (apply includes_In in Einc; exact Einc).
  all: try (apply in_or_app; right; now left).
  all: split; [rewrite kept_In; intros [_ [Hk|Hk]];
               [apply Hothers in Hk; now apply (proj2 Hk) | congruence]|].
  all: intros x; rewrite kept_In.
  - apply includes_In in Einc. intuition (subst; auto).
  - rewrite in_app_iff. simpl. intuition (subst; auto).
Qed.

Lemma admin_departure_witness :
  exists s',
    saved (worldOf trioRoom) (disconnect "A" (worldOf trioRoom)) s'
    /\ RoomState.adminId s' = "B"%string
    /\ In "B"%string (RoomState.playAllowedUserIds s')
    /\ ~ In "A"%string (RoomState.playAllowedUserIds s').
Proof.
  destruct (admin_departure "A" "R1" (worldOf trioRoom) (member "B" false) [member "C" false]
                            eq_refl eq_refl eq_refl)
    as (s' & Hsaved & _ & Hadmin & _ & _ & Hin & Hout & _).
  exists s'. split; [exact Hsaved|]. split; [exact Hadmin|]. split; [exact Hin | exact Hout].
Defined.

(** ** The clock engine *)

Lemma lastSample_snoc (l : list SyncSample.t) (s : SyncSample.t) :
  SyncManager.lastSample (l ++ [s]) = Some s.
Proof.
  unfold SyncManager.lastSample. rewrite length_app. simpl.
  replace (length l + 1 - 1)%nat with (length l) by lia.
  rewrite nth_error_app2 by lia. now rewrite Nat.sub_diag.
Qed.

Lemma lastSample_pushSample (l : list SyncSample.t) (s : SyncSample.t) :
  SyncManager.lastSample (SyncManager.pushSample l s) = Some s.
Proof.
  unfold SyncManager.pushSample.
  destruct (Nat.ltb_spec SyncManager.WINDOW_SIZE (length (l ++ [s]))) as [Hlong|_].
  - destruct l as [|x l]; [simpl in Hlong; unfold SyncManager.WINDOW_SIZE in Hlong; lia|].
    simpl. apply lastSample_snoc.
  - apply lastSample_snoc.
Qed.

Lemma pushSample_not_empty (l : list SyncSample.t) (s : SyncSample.t) :
  SyncManager.pushSample l s <> [].
Proof.
  intros E. pose proof (lastSample_pushSample l s) as H. rewrite E in H. discriminate.
Qed.

Lemma jitter_ingest (m : SyncManager.t) (p : Pong) :
  SyncManager.jitter (ingest m p)
  = SyncManager.nextJitter (SyncManager.samples m) (pongRtt p) (SyncManager.jitter m).
Proof. reflexivity. Qed.

Lemma lastSample_ingest (m : SyncManager.t) (p : Pong) :
  SyncManager.lastSample (SyncManager.samples (ingest m p))
  = Some (SyncSample.mk (pongRtt p) (pongOffset p) (clientReceiveTime p)).
Proof. apply lastSample_pushSample. Qed.

(** The jitter of the manager depends on the pongs through their round-trip
    times only. *)
Lemma jitter_ingestAll (ps : list Pong) (m : SyncManager.t) :
  SyncManager.jitter (ingestAll m ps)
  = jitterFrom (option_map SyncSample.rtt (SyncManager.lastSample (SyncManager.samples m)))
               (SyncManager.jitter m) (map pongRtt ps).
Proof.
  revert m. induction ps as [|p ps IH]; intros m; [reflexivity|].
  unfold ingestAll in *. simpl. rewrite IH, lastSample_ingest, jitter_ingest.
  unfold SyncManager.nextJitter.
  destruct (SyncManager.lastSample (SyncManager.samples m)); reflexivity.
Qed.

Lemma decay_pos (n : nat) : 0 < decay n.
Proof.
  induction n as [|n IH]; simpl; [reflexivity|].
  apply Qmult_lt_0_compat; [assumption | reflexivity].
Qed.

(** Bernoulli's bound: [(15/16)^n <= 15 / (n + 15)]. *)
Lemma decay_bound (n : nat) : decay n * (inject_Z (Z.of_nat n) + 15) <= 15.
Proof.
  induction n as [|n IH].
  - vm_compute. discriminate.
  - pose proof (decay_pos n) as Hpos.
    assert (En : inject_Z (Z.of_nat (S n)) == inject_Z (Z.of_nat n) + 1).
    { rewrite Nat2Z.inj_succ. unfold Z.succ. rewrite inject_Z_plus. reflexivity. }
    assert (Hn : 0 <= inject_Z (Z.of_nat n)).
    { change 0 with (inject_Z 0). rewrite <- Zle_Qle. lia. }
    simpl decay. rewrite En.
    setoid_replace (decay n * (15 # 16) * (inject_Z (Z.of_nat n) + 1 + 15))
      with (decay n * (inject_Z (Z.of_nat n) + 15)
            - decay n * (inject_Z (Z.of_nat n) * (1 # 16))) by ring.
    assert (0 <= decay n * (inject_Z (Z.of_nat n) * (1 # 16))).
    { apply Qmult_le_0_compat; [lra|]. apply Qmult_le_0_compat; [assumption | lra]. }
    lra.
Qed.

(** The weight [decay n] falls below any bound. *)
Lemma decay_vanishes (d eps : Q) :
  0 <= d -> 0 < eps -> exists N, forall n, (N <= n)%nat -> d * decay n < eps.
Proof.
  intros Hd Heps.
  exists (Z.to_nat (Qfloor (15 * d / eps)) + 1)%nat. intros n Hn.
  pose proof (decay_bound n) as Hb. pose proof (decay_pos n) as Hpos.
  assert (Hlarge : 15 * d / eps < inject_Z (Z.of_nat n)).
  { eapply Qlt_le_trans; [apply Qlt_floor|]. rewrite <- Zle_Qle. lia. }
  assert (Hmul : 15 * d < inject_Z (Z.of_nat n) * eps).
  { setoid_replace (15 * d) with (15 * d / eps * eps) by (field; lra).
    apply Qmult_lt_compat_r; assumption. }
  set (k := inject_Z (Z.of_nat n)) in *.
  assert (Hk : 0 < k + 15).
  { assert (0 <= k) by (subst k; change 0 with (inject_Z 0); rewrite <- Zle_Qle; lia). lra. }
  apply Qnot_le_lt. intros Hge.
  assert (H1 : eps * (k + 15) <= d * decay n * (k + 15)).
  { apply Qmult_le_compat_r; [assumption | lra]. }
  assert (H2 : d * (decay n * (k + 15)) <= d * 15).
  { setoid_replace (d * (decay n * (k + 15))) with (decay n * (k + 15) * d) by ring.
    setoid_replace (d * 15) with (15 * d) by ring.
    apply Qmult_le_compat_r; assumption. }
  setoid_replace (d * decay n * (k + 15)) with (d * (decay n * (k + 15))) in H1 by ring.
  lra.
Qed.

Lemma jitterFrom_steady (d : Q) (rtts : list Q) (q j : Q) :
  steps d q rtts -> jitterFrom (Some q) j rtts == d - (d - j) * decay (length rtts).
Proof.
  revert q j. induction rtts as [|r rest IH]; intros q j H; simpl.
  - ring.
  - destruct H as [Hd Hrest]. rewrite (IH r _ Hrest), Hd. field.
Qed.

Lemma alternates_steps (rest : list Q) (a b x d : Q) :
  d == Qabs (a - b) -> x == a -> alternates b a rest -> steps d x rest.
Proof.
  revert a b x. induction rest as [|y rest IH]; intros a b x Hd Hx H; cbn [steps]; [exact I|].
  destruct H as [Hy Hrest]. split.
  - rewrite Hy, Hx, Hd, (Qabs_Qminus b a). reflexivity.
  - apply (IH b a y); [|assumption|assumption].
    rewrite Hd, (Qabs_Qminus a b). reflexivity.
Qed.

Lemma constantRtt_alternates (r : Q) (ps : list Pong) :
  constantRtt r ps -> alternatingRtt r r ps.
Proof.
  unfold alternatingRtt. induction ps as [|p ps IH]; intros H; simpl; [exact I|].
  split; [apply H; now left | apply IH; intros p' Hp'; apply H; now right].
Qed.

(** The jitter of a new manager after pongs whose round-trip times alternate. *)
Lemma jitter_alternating (r1 r2 : Q) (p : Pong) (ps : list Pong) :
  alternatingRtt r1 r2 (p :: ps) ->
  SyncManager.jitter (ingestAll SyncManager.init (p :: ps))
  == Qabs (r1 - r2) * (1 - decay (length ps)).
Proof.
  intros [Hp Hps]. rewrite jitter_ingestAll.
  change (jitterFrom (Some (pongRtt p)) 0 (map pongRtt ps)
          == Qabs (r1 - r2) * (1 - decay (length ps))).
  rewrite (jitterFrom_steady (Qabs (r1 - r2)) _ (pongRtt p) 0).
  - rewrite length_map. ring.
  - apply (alternates_steps _ r1 r2); [reflexivity | assumption | assumption].
Qed.

(** The jitter a manager has accumulated fades under pongs that repeat the
    round-trip time of its newest sample. *)
Lemma jitter_constant_decays (r : Q) (m : SyncManager.t) (prev : SyncSample.t)
    (ps : list Pong) :
  SyncManager.lastSample (SyncManager.samples m) = Some prev ->
  SyncSample.rtt prev == r ->
  constantRtt r ps ->
  SyncManager.jitter (ingestAll m ps) == SyncManager.jitter m * decay (length ps).
Proof.
  intros Hlast Hprev Hconst. rewrite jitter_ingestAll, Hlast. cbn [option_map].
  rewrite (jitterFrom_steady 0).
  - rewrite length_map. ring.
  - apply (alternates_steps _ r r); [| assumption | now apply constantRtt_alternates].
    setoid_replace (r - r) with 0 by ring. reflexivity.
Qed.

Lemma alternating_converges (r1 r2 : Q) :
  jitterConvergesTo (alternatingRtt r1 r2) (Qabs (r1 - r2)).
Proof.
  intros eps Heps.
  destruct (decay_vanishes (Qabs (r1 - r2)) eps (Qabs_nonneg _) Heps) as [N HN].
  exists (S N). intros ps Hlen Halt.
  destruct ps as [|p ps]; [simpl in Hlen; lia|].
  rewrite (jitter_alternating r1 r2 p ps Halt).
  setoid_replace (Qabs (r1 - r2) * (1 - decay (length ps)) - Qabs (r1 - r2))
    with (- (Qabs (r1 - r2) * decay (length ps))) by ring.
  rewrite Qabs_opp, Qabs_pos.
  - apply HN. simpl in Hlen. lia.
  - apply Qmult_le_0_compat; [apply Qabs_nonneg|]. pose proof (decay_pos (length ps)). lra.
Qed.

Lemma pongRtt_pongAt (sent rtt offset : Q) : 0 <= rtt -> pongRtt (pongAt sent rtt offset) == rtt.
Proof.
  intros Hrtt. unfold pongRtt, pongAt, SyncManager.rttOf. simpl.
  rewrite Q.max_r.
  - ring.
  - setoid_replace (sent + rtt - sent - (sent + rtt / 2 + offset - (sent + rtt / 2 + offset)))
      with rtt by ring.
    assumption.
Qed.

Lemma zigzag_alternates (n start : nat) :
  alternates (if Nat.even start then 0 else 17) (if Nat.even start then 17 else 0)
    (map pongRtt
       (map (fun i => pongAt (inject_Z (2000 * Z.of_nat i)) (if Nat.even i then 0 else 17) 0)
            (seq start n))).
Proof.
  revert start. induction n as [|n IH]; intros start; simpl; [exact I|].
  split.
  - apply pongRtt_pongAt. destruct (Nat.even start); discriminate.
  - specialize (IH (S start)). rewrite Nat.even_succ, <- Nat.negb_even in IH.
    destruct (Nat.even start); exact IH.
Qed.

Lemma zigzag_alternating (n : nat) : alternatingRtt 0 17 (zigzag n).
Proof. exact (zigzag_alternates n 0). Qed.

(** ** C2: the jitter estimate *)

(** C2, as stated, fails: over pongs whose round-trip times alternate between
    0 and 17 the jitter does not converge to [|0 - 17| * 16/17 = 16]; it
    passes 16.5 and stays above. *)
Lemma jitter_limit_is_not_16_17ths :
  ~ jitterConvergesTo (alternatingRtt 0 17) (Qabs (0 - 17) * (16 # 17)).
Proof.
  intros H. destruct (H (1 # 2)) as [N HN]; [reflexivity|].
  specialize (HN (zigzag (S (N + 599)))).
  assert (Hlen : length (zigzag (S (N + 599))) = S (N + 599))
    by (unfold zigzag; now rewrite length_map, length_seq).
  specialize (HN ltac:(lia) (zigzag_alternating _)).
  pose proof (zigzag_alternating (S (N + 599))) as Halt.
  destruct (zigzag (S (N + 599))) as [|p ps] eqn:E; [discriminate|].
  injection Hlen as Hlen.
  rewrite (jitter_alternating 0 17 p ps Halt), Hlen in HN.
  pose proof (decay_bound (N + 599)) as Hb. pose proof (decay_pos (N + 599)) as Hpos.
  set (D := decay (N + 599)) in *.
  assert (Hk : 614 <= inject_Z (Z.of_nat (N + 599)) + 15).
  { assert (inject_Z 599 <= inject_Z (Z.of_nat (N + 599))) by (rewrite <- Zle_Qle; lia).
    change (inject_Z 599) with 599 in *. lra. }
  assert (HD : D * 614 <= 15).
  { eapply Qle_trans; [|exact Hb]. apply Qmult_le_l; assumption. }
  change (Qabs (0 - 17)) with 17 in HN.
  apply Qabs_Qlt_condition in HN. lra.
Qed.

(** C2, amended: the jitter starts at 0, the first pong leaves it as it is
    and every later one updates it by [J + (|rtt - previous rtt| - J) / 16],
    the previous rtt being that of the pong before, whatever the window;
    over pongs of constant round-trip time it stays 0, so converges to 0, and
    jitter accumulated before fades by 15/16 a pong; over pongs whose
    round-trip times alternate between [r1] and [r2] it is
    [|r1 - r2| * (1 - (15/16)^n)] after [n + 1] pongs and converges to
    [|r1 - r2|], the fixed point of the update. *)
Theorem jitter_ewma :
  SyncManager.jitter SyncManager.init = 0
  /\ (forall m p,
        SyncManager.jitter (ingest m p)
        = match SyncManager.lastSample (SyncManager.samples m) with
          | Some prev =>
              SyncManager.jitter m
              + (Qabs (pongRtt p - SyncSample.rtt prev) - SyncManager.jitter m) / 16
          | None => SyncManager.jitter m
          end)
  /\ (forall m p,
        option_map SyncSample.rtt (SyncManager.lastSample (SyncManager.samples (ingest m p)))
        = Some (pongRtt p))
  /\ (forall r ps, constantRtt r ps ->
        SyncManager.jitter (ingestAll SyncManager.init ps) == 0)
  /\ (forall r, jitterConvergesTo (constantRtt r) 0)
  /\ (forall r m prev ps,
        SyncManager.lastSample (SyncManager.samples m) = Some prev ->
        SyncSample.rtt prev == r -> constantRtt r ps ->
        SyncManager.jitter (ingestAll m ps) == SyncManager.jitter m * decay (length ps))
  /\ (forall r1 r2 p ps, alternatingRtt r1 r2 (p :: ps) ->
        SyncManager.jitter (ingestAll SyncManager.init (p :: ps))
        == Qabs (r1 - r2) * (1 - decay (length ps)))
  /\ (forall r1 r2, jitterConvergesTo (alternatingRtt r1 r2) (Qabs (r1 - r2)))
  /\ (forall d j, j == d <-> j + (d - j) / 16 == j).
Proof.
  assert (Hconst : forall r ps, constantRtt r ps ->
                     SyncManager.jitter (ingestAll SyncManager.init ps) == 0).
  { intros r [|p ps] H; [reflexivity|].
    rewrite (jitter_alternating r r p ps (constantRtt_alternates r _ H)).
    setoid_replace (r - r) with 0 by ring. change (Qabs 0) with 0. ring. }
  split; [reflexivity|].
  split; [intros m p; reflexivity|].
  split; [intros m p; now rewrite lastSample_ingest|].
  split; [exact Hconst|].
  split.
  { intros r eps Heps. exists 0%nat. intros ps _ H.
    rewrite (Hconst r ps H). exact Heps. }
  split; [exact jitter_constant_decays|].
  split; [exact jitter_alternating|].
  split; [exact alternating_converges|].
  intros d j. setoid_replace ((d - j) / 16) with ((d - j) * (1 # 16)) by field.
  split; intros H; lra.
Qed.

Lemma jitter_ewma_witness :
  SyncManager.jitter
    (ingestAll SyncManager.init [pongAt 0 0 0; pongAt 2000 17 0; pongAt 4000 0 0])
  == 17 * (1 - (15 # 16) * (15 # 16))
  /\ SyncManager.jitter
       (ingestAll SyncManager.init [pongAt 0 30 0; pongAt 2000 30 0; pongAt 4000 30 0])
     == 0.
Proof.
  destruct jitter_ewma as (_ & _ & _ & Hconst & _ & _ & Halt & _).
  split.
  - rewrite (Halt 0 17).
    + reflexivity.
    + repeat split; reflexivity.
  - apply (Hconst 30). intros p [<-|[<-|[<-|[]]]]; reflexivity.
Defined.

(** ** C4: the smoothing of the offset *)

(** C4, as stated, fails: the first pong establishes the offset 0; for the
    second the target is 100, within 500 of the offset, and yet the offset is
    not slewed to 15 but set to the target, 100. *)
Lemma established_zero_offset_snaps :
  let m1 := ingest SyncManager.init (pongAt 0 20 0) in
  let p2 := pongAt 2000 10 100 in
  let current := SyncManager.currentOffset m1 in
  let target := targetOffsetOf m1 p2 in
  established m1
  /\ current == 0
  /\ target == 100
  /\ Qabs (target - current) <= 500
  /\ SyncManager.currentOffset (ingest m1 p2) == 100
  /\ ~ SyncManager.currentOffset (ingest m1 p2) == current + (target - current) * (15 # 100).
Proof.
  vm_compute. repeat split; discriminate.
Qed.

(** C4, amended: for every pong, if the current offset is 0, which is how
    the code tells that none is established and which an established offset
    of 0 meets as well, or the target differs from it by more than 500 ms,
    the offset is set to the target; otherwise it becomes
    [current + (target - current) * 0.15].  A new manager has offset 0. *)
Theorem offset_smoothing (m : SyncManager.t) (p : Pong) :
  let current := SyncManager.currentOffset m in
  let target := targetOffsetOf m p in
  let current' := SyncManager.currentOffset (ingest m p) in
  SyncManager.currentOffset SyncManager.init = 0
  /\ (current == 0 \/ 500 < Qabs (target - current) -> current' = target)
  /\ (~ current == 0 -> Qabs (target - current) <= 500 ->
      current' = current + (target - current) * (15 # 100)).
Proof.
  intros current target current'.
  assert (E : current' = SyncManager.nextOffset current target) by reflexivity.
  rewrite E. unfold SyncManager.nextOffset, Qltb.
  split; [reflexivity|]. split.
  - intros [Hz|Hfar].
    + apply Qeq_bool_iff in Hz. now rewrite Hz.
    + destruct (Qle_bool (Qabs (target - current)) 500) eqn:Hle.
      * apply Qle_bool_iff in Hle. lra.
      * now rewrite orb_true_r.
  - intros Hnz Hnear.
    destruct (Qeq_bool current 0) eqn:Hz; [apply Qeq_bool_iff in Hz; contradiction|].
    apply Qle_bool_iff in Hnear. now rewrite Hnear.
Qed.

Lemma offset_smoothing_witness :
  let m1 := ingest SyncManager.init (pongAt 0 20 40) in
  SyncManager.currentOffset m1 == 40
  /\ SyncManager.currentOffset (ingest m1 (pongAt 2000 10 100)) == 49
  /\ SyncManager.currentOffset (ingest m1 (pongAt 2000 10 900)) == 900.
Proof.
  intros m1.
  pose proof (offset_smoothing SyncManager.init (pongAt 0 20 40)) as (_ & Hfirst & _).
  pose proof (offset_smoothing m1 (pongAt 2000 10 100)) as (_ & _ & Hslew).
  pose proof (offset_smoothing m1 (pongAt 2000 10 900)) as (_ & Hsnap & _).
  split; [|split].
  - unfold m1. rewrite Hfirst; [reflexivity | left; reflexivity].
  - rewrite Hslew; [reflexivity | discriminate | discriminate].
  - rewrite Hsnap; [reflexivity | right; reflexivity].
Defined.

(** * Further properties of the clock engine *)

Lemma samples_ingest (m : SyncManager.t) (p : Pong) :
  SyncManager.samples (ingest m p) = windowAfter m p.
Proof. reflexivity. Qed.

Lemma pushSample_lastN (l rest : list SyncSample.t) (s : SyncSample.t) :
  (length l <= SyncManager.WINDOW_SIZE)%nat ->
  (length (SyncManager.pushSample l s) <= SyncManager.WINDOW_SIZE)%nat
  /\ lastN SyncManager.WINDOW_SIZE (SyncManager.pushSample l s ++ rest)
     = lastN SyncManager.WINDOW_SIZE (l ++ s :: rest).
Proof.
  intros Hlen. unfold SyncManager.pushSample, SyncManager.WINDOW_SIZE in *.
  destruct (Nat.ltb_spec 20 (length (l ++ [s]))) as [Hlong|Hshort];
    rewrite length_app in *; cbn [length] in *.
  - destruct l as [|x l]; [cbn [length] in Hlong; lia|]. cbn [length] in *.
    assert (H19 : length l = 19%nat) by lia.
    cbn [app tl]. split; [rewrite length_app; cbn [length]; lia|].
    unfold lastN. rewrite <- app_assoc. cbn [app].
    replace (length (l ++ s :: rest) - 20)%nat with (length rest)
      by (rewrite length_app; cbn [length]; lia).
    replace (length (x :: l ++ s :: rest) - 20)%nat with (S (length rest))
      by (cbn [length]; rewrite length_app; cbn [length]; lia).
    reflexivity.
  - split; [lia|]. now rewrite <- app_assoc.
Qed.

Lemma samples_ingestAll (ps : list Pong) (m : SyncManager.t) :
  (length (SyncManager.samples m) <= SyncManager.WINDOW_SIZE)%nat ->
  SyncManager.samples (ingestAll m ps)
  = lastN SyncManager.WINDOW_SIZE (SyncManager.samples m ++ map sampleOf ps).
Proof.
  revert m. induction ps as [|p ps IH]; intros m Hlen.
  - simpl. rewrite app_nil_r. unfold lastN.
    replace (length (SyncManager.samples m) - SyncManager.WINDOW_SIZE)%nat with 0%nat by lia.
    reflexivity.
  - destruct (pushSample_lastN (SyncManager.samples m) (map sampleOf ps) (sampleOf p) Hlen)
      as [Hlen' E].
    change (ingestAll m (p :: ps)) with (ingestAll (ingest m p) ps).
    rewrite IH by (rewrite samples_ingest; exact Hlen').
    rewrite samples_ingest. exact E.
Qed.

(** X1: the window of a new manager holds, after any sequence of pongs, the
    samples of the newest 20 of them in arrival order, and never more than
    20: the oldest sample is the one evicted. *)
Theorem window_keeps_newest (ps : list Pong) :
  SyncManager.samples (ingestAll SyncManager.init ps)
  = lastN SyncManager.WINDOW_SIZE (map sampleOf ps)
  /\ length (SyncManager.samples (ingestAll SyncManager.init ps))
     = Nat.min (length ps) 20.
Proof.
  assert (E : SyncManager.samples (ingestAll SyncManager.init ps)
              = lastN SyncManager.WINDOW_SIZE (map sampleOf ps)).
  { rewrite samples_ingestAll by (simpl; unfold SyncManager.WINDOW_SIZE; lia). reflexivity. }
  split; [exact E|].
  rewrite E. unfold lastN, SyncManager.WINDOW_SIZE.
  rewrite length_skipn, length_map. lia.
Qed.

Lemma bestSample_spec (l : list SyncSample.t) (first : SyncSample.t) :
  (SyncManager.bestSample first l = first \/ In (SyncManager.bestSample first l) l)
  /\ SyncSample.rtt (SyncManager.bestSample first l) <= SyncSample.rtt first
  /\ forall s, In s l -> SyncSample.rtt (SyncManager.bestSample first l) <= SyncSample.rtt s.
Proof.
  unfold SyncManager.bestSample.
  revert first. induction l as [|x l IH]; intros first; cbn [fold_left].
  - split; [now left|]. split; [apply Qle_refl | intros s []].
  - destruct (Qltb (SyncSample.rtt x) (SyncSample.rtt first)) eqn:E;
      unfold Qltb in E.
    + assert (Hlt : SyncSample.rtt x < SyncSample.rtt first).
      { apply Qnot_le_lt. intros Hle. apply Qle_bool_iff in Hle.
        rewrite Hle in E. discriminate. }
      destruct (IH x) as (Hin & Hfirst & Hall).
      split; [destruct Hin as [->|Hin]; right; [now left | now right]|].
      split; [eapply Qle_trans; [exact Hfirst | apply Qlt_le_weak, Hlt]|].
      intros s [<-|Hs]; [assumption | now apply Hall].
    + apply negb_false_iff, Qle_bool_iff in E.
      destruct (IH first) as (Hin & Hfirst & Hall).
      split; [destruct Hin; [now left | right; now right]|]. split; [assumption|].
      intros s [<-|Hs]; [eapply Qle_trans; eassumption | now apply Hall].
Qed.

Lemma windowAfter_has_new (m : SyncManager.t) (p : Pong) : In (sampleOf p) (windowAfter m p).
Proof.
  pose proof (lastSample_pushSample (SyncManager.samples m) (sampleOf p)) as H.
  unfold SyncManager.lastSample in H. apply nth_error_In in H. exact H.
Qed.

(** X2: the min-filter: after a pong the sample picked is one of the window, no
    sample of the window has a smaller round-trip time, the latency is half
    its round-trip time and the smoothing target its offset; so the latency
    is at most half the round-trip time of the pong just processed, and is
    not negative once the window's round-trip times are not. *)
Theorem min_filter_picks_least_rtt (m : SyncManager.t) (p : Pong) :
  let best := bestAfter m p in
  In best (windowAfter m p)
  /\ (forall s, In s (windowAfter m p) -> SyncSample.rtt best <= SyncSample.rtt s)
  /\ SyncManager.currentLatency (ingest m p) = SyncSample.rtt best / 2
  /\ targetOffsetOf m p = SyncSample.offset best
  /\ SyncManager.currentLatency (ingest m p) <= pongRtt p / 2
  /\ 0 <= pongRtt p
  /\ ((forall s, In s (SyncManager.samples m) -> 0 <= SyncSample.rtt s) ->
      0 <= SyncManager.currentLatency (ingest m p)).
Proof.
  intros best.
  pose proof (windowAfter_has_new m p) as Hnew.
  destruct (bestSample_spec (windowAfter m p) (hd (sampleOf p) (windowAfter m p)))
    as (Hin & _ & Hall). fold (bestAfter m p) in Hin, Hall. fold best in Hin, Hall.
  assert (Hbest : In best (windowAfter m p)).
  { destruct Hin as [E|Hin]; [|exact Hin].
    rewrite E. destruct (windowAfter m p); [destruct Hnew | now left]. }
  assert (Hrtt : 0 <= pongRtt p) by apply Q.le_max_l.
  assert (Hhalf : forall a b, a <= b -> a / 2 <= b / 2).
  { intros a b Hab. unfold Qdiv. apply Qmult_le_compat_r; [exact Hab | discriminate]. }
  split; [exact Hbest|]. split; [exact Hall|].
  split; [reflexivity|]. split; [reflexivity|].
  split; [apply Hhalf, (Hall _ Hnew)|]. split; [exact Hrtt|].
  intros Hpos. change (0 <= SyncSample.rtt best / 2).
  setoid_replace 0 with (0 / 2) by reflexivity. apply Hhalf.
  assert (Hwin : forall s, In s (windowAfter m p) -> 0 <= SyncSample.rtt s).
  { intros s Hs. unfold windowAfter, SyncManager.pushSample in Hs.
    assert (Hs' : In s (SyncManager.samples m ++ [sampleOf p])).
    { destruct (Nat.ltb _ _); [|exact Hs].
      destruct (SyncManager.samples m ++ [sampleOf p]); [destruct Hs | now right]. }
    apply in_app_or in Hs'. destruct Hs' as [Hs'|[<-|[]]]; [now apply Hpos | exact Hrtt]. }
  now apply Hwin.
Qed.

Lemma min_filter_picks_least_rtt_witness :
  0 <= SyncManager.currentLatency
         (ingest (ingest SyncManager.init (pongAt 0 20 40)) (pongAt 2000 10 100))
  /\ SyncManager.currentLatency
       (ingest (ingest SyncManager.init (pongAt 0 20 40)) (pongAt 2000 10 100)) == 5.
Proof.
  split.
  - apply (min_filter_picks_least_rtt (ingest SyncManager.init (pongAt 0 20 40))
                                      (pongAt 2000 10 100)).
    intros s [<-|[]]. discriminate.
  - reflexivity.
Defined.

Lemma nextOffset_contracts (current target : Q) :
  Qabs (target - SyncManager.nextOffset current target)
  <= (85 # 100) * Qabs (target - current).
Proof.
  unfold SyncManager.nextOffset.
  destruct (Qeq_bool current 0 || Qltb 500 (Qabs (target - current))).
  - setoid_replace (target - target) with 0 by ring.
    change (Qabs 0) with 0.
    apply Qmult_le_0_compat; [discriminate | apply Qabs_nonneg].
  - setoid_replace (target - (current + (target - current) * (15 # 100)))
      with ((85 # 100) * (target - current)) by ring.
    rewrite Qabs_Qmult. change (Qabs (85 # 100)) with (85 # 100). apply Qle_refl.
Qed.

Lemma shrink_pos (n : nat) : 0 < shrink n.
Proof.
  induction n as [|n IH]; cbn [shrink]; [reflexivity|].
  apply Qmult_lt_0_compat; [exact IH | reflexivity].
Qed.

(** X3: the smoothing never moves the offset away from its target: after a pong
    the distance to the target is at most 85% of what it was (none after a
    snap); so while the target stays [T], the distance after [n] pongs is at
    most [(85/100)^n] of the first. *)
Theorem offset_error_shrinks (T : Q) (ps : list Pong) (m : SyncManager.t) :
  targetStays T m ps ->
  Qabs (T - SyncManager.currentOffset (ingestAll m ps))
  <= shrink (length ps) * Qabs (T - SyncManager.currentOffset m).
Proof.
  revert m. induction ps as [|p ps IH]; intros m H.
  - cbn [length shrink]. change (ingestAll m []) with m.
    setoid_replace (1 * Qabs (T - SyncManager.currentOffset m))
      with (Qabs (T - SyncManager.currentOffset m)) by ring.
    apply Qle_refl.
  - destruct H as [Htarget Hrest].
    change (ingestAll m (p :: ps)) with (ingestAll (ingest m p) ps).
    eapply Qle_trans; [apply (IH _ Hrest)|].
    cbn [length shrink].
    setoid_replace (shrink (length ps) * (85 # 100) * Qabs (T - SyncManager.currentOffset m))
      with (shrink (length ps) * ((85 # 100) * Qabs (T - SyncManager.currentOffset m)))
      by ring.
    apply Qmult_le_l; [apply shrink_pos|].
    change (SyncManager.currentOffset (ingest m p))
      with (SyncManager.nextOffset (SyncManager.currentOffset m) (targetOffsetOf m p)).
    rewrite <- Htarget. apply nextOffset_contracts.
Qed.

Lemma offset_error_shrinks_witness :
  let m := ingest SyncManager.init (pongAt 0 20 40) in
  Qabs (100 - SyncManager.currentOffset
                (ingestAll m [pongAt 2000 10 100; pongAt 4000 10 100]))
  <= shrink 2 * 60.
Proof.
  intros m.
  pose proof (offset_error_shrinks 100 [pongAt 2000 10 100; pongAt 4000 10 100] m) as H.
  cbn [length] in H. eapply Qle_trans; [apply H|].
  - split; [reflexivity|]. split; [reflexivity | exact I].
  - apply Qmult_le_l; [apply shrink_pos | discriminate].
Defined.

Lemma windowAfter_from (m : SyncManager.t) (p : Pong) (s : SyncSample.t) :
  In s (windowAfter m p) -> In s (SyncManager.samples m) \/ s = sampleOf p.
Proof.
  unfold windowAfter, SyncManager.pushSample. intros Hs.
  assert (Hs' : In s (SyncManager.samples m ++ [sampleOf p])).
  { destruct (Nat.ltb _ _); [|exact Hs].
    destruct (SyncManager.samples m ++ [sampleOf p]); [destruct Hs | now right]. }
  apply in_app_or in Hs'. destruct Hs' as [Hs'|[<-|[]]]; auto.
Qed.

Lemma lastSample_In (l : list SyncSample.t) (s : SyncSample.t) :
  SyncManager.lastSample l = Some s -> In s l.
Proof. unfold SyncManager.lastSample. apply nth_error_In. Qed.

Lemma nextDrift_steady (O d : Q) (l : list SyncSample.t) :
  (forall s, In s l -> SyncSample.offset s == O) -> d == 0 ->
  SyncManager.nextDrift l d == 0.
Proof.
  intros Hall Hd. unfold SyncManager.nextDrift.
  destruct (Nat.leb 2 (length l)); [|exact Hd].
  destruct l as [|oldest l']; [exact Hd|].
  destruct (SyncManager.lastSample (oldest :: l')) as [newest|] eqn:Elast; [|exact Hd].
  destruct (Qltb 1 _); [|exact Hd].
  rewrite (Hall newest (lastSample_In _ _ Elast)), (Hall oldest (or_introl eq_refl)).
  unfold Qdiv. ring.
Qed.

Lemma bestAfter_in_window (m : SyncManager.t) (p : Pong) :
  In (bestAfter m p) (windowAfter m p)
  /\ targetOffsetOf m p = SyncSample.offset (bestAfter m p).
Proof.
  pose proof (windowAfter_has_new m p) as Hnew.
  destruct (bestSample_spec (windowAfter m p) (hd (sampleOf p) (windowAfter m p)))
    as (Hin & _ & _). fold (bestAfter m p) in Hin.
  split; [|reflexivity].
  destruct Hin as [E|Hin]; [|exact Hin].
  rewrite E. destruct (windowAfter m p); [destruct Hnew | now left].
Qed.

Lemma steady_offset_step (O : Q) (m : SyncManager.t) (p : Pong) :
  (forall s, In s (SyncManager.samples m) -> SyncSample.offset s == O) ->
  (SyncManager.samples m = [] -> SyncManager.currentOffset m == 0) ->
  (SyncManager.samples m <> [] -> SyncManager.currentOffset m == O) ->
  SyncManager.drift m == 0 ->
  pongOffset p == O ->
  (forall s, In s (SyncManager.samples (ingest m p)) -> SyncSample.offset s == O)
  /\ SyncManager.currentOffset (ingest m p) == O
  /\ SyncManager.drift (ingest m p) == 0.
Proof.
  intros Hall Hempty Hfull Hdrift Hp.
  assert (Hwin : forall s, In s (windowAfter m p) -> SyncSample.offset s == O).
  { intros s Hs. apply windowAfter_from in Hs. destruct Hs as [Hs| ->];
      [now apply Hall | exact Hp]. }
  split; [exact Hwin|]. split.
  - destruct (bestAfter_in_window m p) as [Hbest Htarget].
    change (SyncManager.currentOffset (ingest m p))
      with (SyncManager.nextOffset (SyncManager.currentOffset m) (targetOffsetOf m p)).
    rewrite Htarget. pose proof (Hwin _ Hbest) as HT.
    unfold SyncManager.nextOffset.
    destruct (Qeq_bool (SyncManager.currentOffset m) 0) eqn:Ez; cbn [orb].
    + exact HT.
    + destruct (Qltb 500 _); [exact HT|].
      assert (Hcur : SyncManager.currentOffset m == O).
      { apply Hfull. intros E. apply Hempty in E. apply Qeq_bool_iff in E. congruence. }
      rewrite HT, Hcur. ring.
  - change (SyncManager.drift (ingest m p))
      with (SyncManager.nextDrift (windowAfter m p) (SyncManager.drift m)).
    now apply (nextDrift_steady O).
Qed.

Lemma steady_offset_all (O : Q) (ps : list Pong) (m : SyncManager.t) :
  (forall s, In s (SyncManager.samples m) -> SyncSample.offset s == O) ->
  (SyncManager.samples m = [] -> SyncManager.currentOffset m == 0) ->
  (SyncManager.samples m <> [] -> SyncManager.currentOffset m == O) ->
  SyncManager.drift m == 0 ->
  measuresOffset O ps -> ps <> [] ->
  SyncManager.currentOffset (ingestAll m ps) == O
  /\ SyncManager.drift (ingestAll m ps) == 0.
Proof.
  revert m. induction ps as [|p ps IH]; intros m Hall Hempty Hfull Hdrift Hps Hne;
    [now elim Hne|].
  destruct (steady_offset_step O m p Hall Hempty Hfull Hdrift (Hps p (or_introl eq_refl)))
    as (Hall' & Hcur' & Hdrift').
  change (ingestAll m (p :: ps)) with (ingestAll (ingest m p) ps).
  destruct ps as [|q ps]; [split; assumption|].
  apply IH; try assumption.
  - intros E. exfalso. pose proof (windowAfter_has_new m p) as Hin.
    rewrite <- samples_ingest, E in Hin. destruct Hin.
  - intros _. exact Hcur'.
  - intros x Hx. apply Hps. now right.
  - discriminate.
Qed.

(** X4: with a clock that is [O] off and pongs that measure it (equal legs out
    and back, whatever the round-trip times), a new manager holds the offset
    [O] after the first pong and after every later one, and its drift stays 0. *)
Theorem steady_offset_is_found (O : Q) (ps : list Pong) :
  measuresOffset O ps -> ps <> [] ->
  SyncManager.currentOffset (ingestAll SyncManager.init ps) == O
  /\ SyncManager.drift (ingestAll SyncManager.init ps) == 0
  /\ forall now,
       SyncManager.getEstimatedServerTime now (ingestAll SyncManager.init ps) == now + O.
Proof.
  intros Hps Hne.
  destruct (steady_offset_all O ps SyncManager.init) as [Hcur Hdrift];
    try assumption; try reflexivity.
  - intros s [].
  - intros H. now elim H.
  - split; [exact Hcur|]. split; [exact Hdrift|].
    intros now. unfold SyncManager.getEstimatedServerTime. now rewrite Hcur.
Qed.

Lemma pongOffset_pongAt (sent rtt offset : Q) : pongOffset (pongAt sent rtt offset) == offset.
Proof.
  unfold pongOffset, pongAt, SyncManager.rawOffsetOf. cbn [clientSendTime serverReceiveTime
    serverReplyTime clientReceiveTime]. field.
Qed.

Lemma steady_offset_is_found_witness :
  SyncManager.currentOffset
    (ingestAll SyncManager.init [pongAt 0 80 (-250); pongAt 2000 30 (-250); pongAt 4000 55 (-250)])
  == -250.
Proof.
  destruct (steady_offset_is_found (-250)
              [pongAt 0 80 (-250); pongAt 2000 30 (-250); pongAt 4000 55 (-250)])
    as (H & _).
  - intros p [<-|[<-|[<-|[]]]]; apply pongOffset_pongAt.
  - discriminate.
  - exact H.
Defined.

Lemma half_over_scale (a s : Q) :
  0 < s -> - (1 # 2) <= a -> a <= 1 # 2 -> Qabs (a / s) <= (1 # 2) / s.
Proof.
  intros Hs Hlo Hhi.
  assert (Hinv : 0 <= / s) by (apply Qinv_le_0_compat, Qlt_le_weak, Hs).
  apply Qabs_Qle_condition. unfold Qdiv. split.
  - setoid_replace (- ((1 # 2) * / s)) with (- (1 # 2) * / s) by ring.
    now apply Qmult_le_compat_r.
  - now apply Qmult_le_compat_r.
Qed.

Lemma round_half_up_close (y s : Q) :
  0 < s ->
  Qabs (inject_Z (Qfloor (y * s + (1 # 2))) / s - y) <= (1 # 2) / s.
Proof.
  intros Hs.
  pose proof (Qfloor_le (y * s + (1 # 2))) as Hlo.
  pose proof (Qlt_floor (y * s + (1 # 2))) as Hhi.
  rewrite inject_Z_plus in Hhi. change (inject_Z 1) with 1 in Hhi.
  set (n := inject_Z (Qfloor (y * s + (1 # 2)))) in *.
  setoid_replace (n / s - y) with ((n - y * s) / s) by (field; lra).
  apply half_over_scale; [exact Hs | lra | lra].
Qed.

Lemma scale_pos (d : nat) : 0 < inject_Z (10 ^ Z.of_nat d).
Proof.
  change 0 with (inject_Z 0). rewrite <- Zlt_Qlt. apply Z.pow_pos_nonneg; lia.
Qed.

Lemma toFixed_close (d : nat) (x : Q) :
  Qabs (toFixed d x - x) <= (1 # 2) / inject_Z (10 ^ Z.of_nat d).
Proof.
  unfold toFixed. pose proof (scale_pos d) as Hs.
  destruct (Qle_bool 0 x).
  - now apply round_half_up_close.
  - setoid_replace (- (inject_Z (Qfloor (- x * inject_Z (10 ^ Z.of_nat d) + (1 # 2)))
                       / inject_Z (10 ^ Z.of_nat d)) - x)
      with (- (inject_Z (Qfloor (- x * inject_Z (10 ^ Z.of_nat d) + (1 # 2)))
               / inject_Z (10 ^ Z.of_nat d) - - x)) by ring.
    rewrite Qabs_opp. now apply round_half_up_close.
Qed.

(** X5: the statistics [processPong] returns are the state of the manager after
    the pong, rounded: latency, offset and jitter are within 0.005 of the
    values held, the drift within 0.0005, and each is a whole number of
    hundredths (thousandths for the drift). *)
Theorem stats_are_the_state_rounded (m : SyncManager.t) (p : Pong) :
  let m' := ingest m p in
  let stats := statsOf m p in
  Qabs (AudioStats.latency stats - SyncManager.currentLatency m') <= 5 # 1000
  /\ Qabs (AudioStats.offset stats - SyncManager.currentOffset m') <= 5 # 1000
  /\ Qabs (AudioStats.jitter stats - SyncManager.jitter m') <= 5 # 1000
  /\ Qabs (AudioStats.drift stats - SyncManager.drift m') <= 5 # 10000
  /\ (exists a b c k : Z,
        AudioStats.latency stats == inject_Z a / 100
        /\ AudioStats.offset stats == inject_Z b / 100
        /\ AudioStats.jitter stats == inject_Z c / 100
        /\ AudioStats.drift stats == inject_Z k / 1000).
Proof.
  intros m' stats.
  assert (Hwhole : forall d x, exists k : Z,
            toFixed d x == inject_Z k / inject_Z (10 ^ Z.of_nat d)).
  { intros d x. unfold toFixed. destruct (Qle_bool 0 x).
    - eexists. reflexivity.
    - exists (- Qfloor (- x * inject_Z (10 ^ Z.of_nat d) + (1 # 2)))%Z.
      rewrite inject_Z_opp. unfold Qdiv. ring. }
  assert (Hclose2 : forall x, Qabs (toFixed 2 x - x) <= 5 # 1000).
  { intros x. eapply Qle_trans; [apply (toFixed_close 2 x) | vm_compute; discriminate]. }
  assert (Hclose3 : forall x, Qabs (toFixed 3 x - x) <= 5 # 10000).
  { intros x. eapply Qle_trans; [apply (toFixed_close 3 x) | vm_compute; discriminate]. }
  split; [exact (Hclose2 _)|]. split; [exact (Hclose2 _)|].
  split; [exact (Hclose2 _)|]. split; [exact (Hclose3 _)|].
  destruct (Hwhole 2%nat (SyncManager.currentLatency m')) as [a Ha].
  destruct (Hwhole 2%nat (SyncManager.currentOffset m')) as [b Hb].
  destruct (Hwhole 2%nat (SyncManager.jitter m')) as [c Hc].
  destruct (Hwhole 3%nat (SyncManager.drift m')) as [k Hk].
  exists a, b, c, k.
  split; [exact Ha|]. split; [exact Hb|]. split; [exact Hc | exact Hk].
Qed.

(** * Further properties of the room *)

(** The cases of [handleServerEvent] on a tab with an active room: each goal
    that remains is about one snapshot the handler saved. *)
Ltac handler_cases H r :=
  let roomId := fresh "roomId" in
  unfold handleServerEvent;
  destruct (activeRoomId _) as [roomId|]; [|apply H];
  let Hs := fresh "Hs" in
  pose proof (H roomId) as Hs; unfold roomOf in Hs;
  match goal with
  | |- context [loadState ?ls roomId] => set (s := loadState ls roomId) in *
  end;
  match goal with
  | |- context [match ?c with sync_ping _ => _ | _ => _ end] => destruct c
  end; simpl;
  repeat match goal with
         | |- context [if ?b then _ else _] => destruct b eqn:?; simpl
         | |- context [match at_index ?l ?i with _ => _ end] =>
             destruct (at_index l i) eqn:?; simpl
         end;
  try (apply H);
  storage_cases r; try apply H.

Lemma handleServerEvent_playbackInvariant (serverNow : Q) (c : Command) (userId : string)
    (w : World) :
  (forall r, playbackInvariant (roomOf w r)) ->
  forall r, playbackInvariant (roomOf (handleServerEvent serverNow c userId w) r).
Proof.
  intros H r. handler_cases H r.
  all: unfold playbackInvariant in *; simpl; try exact Hs.
  all: destruct Hs as (Hb & Hstart).
  all: split; try discriminate; try assumption.
  all: try (intros _; reflexivity).
  all: try (intros E; now elim E).
  all: destruct (RoomState.playbackState s); simpl in *;
    solve [ intros _; reflexivity | exact Hstart | now elim Hb ].
Qed.

(** Join and leave keep the queue and the playback fields of every room. *)
Lemma connect_sameMedia (P : RoomState.t -> Prop) (userName roomId userId : string)
    (w : World) :
  (forall s s', sameMedia s s' -> P s -> P s') ->
  (forall r, P (roomOf w r)) ->
  forall r, P (roomOf (fst (connect userName roomId userId w)) r).
Proof.
  intros HP H r. unfold connect.
  destruct (String.eqb roomId EmptyString); [exact (H r)|].
  pose proof (H roomId) as Hs. unfold roomOf in Hs.
  set (s := loadState (localStorage w) roomId) in *.
  destruct (Nat.eqb (length (RoomState.users s)) 0);
    [| destruct (String.eqb (RoomState.adminId s) EmptyString)].
  all: storage_cases r; try apply H.
  all: apply (HP s); [repeat split | exact Hs].
Qed.

Lemma disconnect_sameMedia (P : RoomState.t -> Prop) (userId : string) (w : World) :
  (forall s s', sameMedia s s' -> P s -> P s') ->
  (forall r, P (roomOf w r)) ->
  forall r, P (roomOf (disconnect userId w) r).
Proof.
  intros HP H r. unfold disconnect.
  destruct (activeRoomId w) as [roomId|]; [|apply H].
  pose proof (H roomId) as Hs. unfold roomOf in Hs.
  set (s := loadState (localStorage w) roomId) in *.
  set (users1 := filter _ (RoomState.users s)).
  destruct (String.eqb userId (RoomState.adminId s));
    [destruct users1 as [|newAdmin rest];
      [|destruct (negb (includes (User.id newAdmin) (RoomState.playAllowedUserIds s)))]|].
  all: destruct (find _ (RoomState.users s)); storage_cases r; try apply H.
  all: apply (HP s); [repeat split | exact Hs].
Qed.

Lemma step_sameMedia (P : RoomState.t -> Prop) (o : Op) (w : World) :
  (forall s s', sameMedia s s' -> P s -> P s') ->
  (forall serverNow c userId w,
     (forall r, P (roomOf w r)) ->
     forall r, P (roomOf (handleServerEvent serverNow c userId w) r)) ->
  (forall r, P (roomOf w r)) ->
  forall r, P (roomOf (step o w) r).
Proof.
  intros HP Hcmd H. destruct o as [userName roomId userId | userId | serverNow c userId];
    cbn [step].
  - now apply connect_sameMedia.
  - now apply disconnect_sameMedia.
  - unfold emit. destruct (activeRoomId w), (mockState w); try assumption.
    now apply Hcmd.
Qed.

Lemma step_playbackInvariant (o : Op) (w : World) :
  (forall r, playbackInvariant (roomOf w r)) ->
  forall r, playbackInvariant (roomOf (step o w) r).
Proof.
  apply step_sameMedia.
  - intros s s' (_ & _ & _ & _ & Epb & Est & _) H.
    unfold playbackInvariant. now rewrite Epb, Est.
  - apply handleServerEvent_playbackInvariant.
Qed.

(** X6: every operation keeps the playback fields of every stored room in
    agreement: the state is PAUSED or PLAYING, never BUFFERING, and only a
    PLAYING room has a start time: in a room that is not PLAYING
    [startAtServerTime] is null. *)
Theorem playback_fields_agree (o : Op) (w : World) :
  (forall r, playbackInvariant (roomOf w r)) ->
  forall r, playbackInvariant (roomOf (step o w) r).
Proof. exact (step_playbackInvariant o w). Qed.

Lemma seed_playbackInvariant (r : string) : playbackInvariant (loadState (fun _ => None) r).
Proof.
  split; [discriminate|]. intros H. now elim H.
Qed.

Lemma playback_fields_agree_witness :
  playbackInvariant (roomOf (step (command 0 cmd_play "A") (worldOf soloRoom)) "R1").
Proof.
  apply (playback_fields_agree (command 0 cmd_play "A") (worldOf soloRoom)).
  apply worldOf_rooms; [|apply seed_playbackInvariant].
  split; [discriminate|]. intros H. now elim H.
Defined.

Lemma at_index_In {A : Type} (l : list A) (i : Z) (x : A) : at_index l i = Some x -> In x l.
Proof.
  unfold at_index. destruct (i <? 0)%Z; [discriminate|]. apply nth_error_In.
Qed.

Lemma handleServerEvent_currentInQueue (serverNow : Q) (c : Command) (userId : string)
    (w : World) :
  (forall r, currentInQueue (roomOf w r)) ->
  forall r, currentInQueue (roomOf (handleServerEvent serverNow c userId w) r).
Proof.
  intros H r. handler_cases H r.
  all: unfold currentInQueue in *; simpl; try exact Hs.
  all: try (destruct Hs as (t & Ht & E); exists t;
            split; [apply in_or_app; now left | exact E]).
  - match goal with E : existsb _ _ = true |- _ =>
      apply existsb_exists in E;
      let t := fresh "t" in let Ht := fresh "Ht" in let Eid := fresh "Eid" in
      destruct E as (t & Ht & Eid); apply String.eqb_eq in Eid;
      exists t; split; [exact Ht | now rewrite Eid]
    end.
  - match goal with E : at_index _ _ = Some ?t |- _ => apply at_index_In in E; exists t end.
    split; [assumption | reflexivity].
Qed.

Lemma currentInQueue_currentAt (s : RoomState.t) :
  currentInQueue s -> exists i, currentAt s i.
Proof.
  intros (t & Ht & E). unfold currentAt. rewrite E. clear E.
  induction (RoomState.queue s) as [|x l IH]; [destruct Ht|].
  destruct (String.eqb (Track.id x) (Track.id t)) eqn:Ex.
  - exists 0%nat, x. split; [reflexivity|]. split; [exact Ex|]. intros j t' Hj. lia.
  - destruct Ht as [->|Ht]; [rewrite String.eqb_refl in Ex; discriminate|].
    destruct (IH Ht) as (i & t0 & Hi & Hcur & Hbefore).
    exists (S i), t0. split; [exact Hi|]. split; [exact Hcur|].
    intros [|j] t' Hj Ht'.
    + injection Ht' as <-. exact Ex.
    + apply (Hbefore j t'); [lia | exact Ht'].
Qed.

Lemma step_currentInQueue (o : Op) (w : World) :
  (forall r, currentInQueue (roomOf w r)) ->
  forall r, currentInQueue (roomOf (step o w) r).
Proof.
  apply step_sameMedia; [| apply handleServerEvent_currentInQueue].
  intros s s' (_ & _ & Eq & Ec & _) Hs. unfold currentInQueue. now rewrite Eq, Ec.
Qed.

(** X7: every operation keeps the current track of every stored room among the
    entries of its queue (the queue is only ever appended to); in such a room
    the index [cmd:next] looks up is never -1. *)
Theorem current_track_stays_in_queue (o : Op) (w : World) :
  (forall r, currentInQueue (roomOf w r)) ->
  forall r, currentInQueue (roomOf (step o w) r)
            /\ exists i, currentAt (roomOf (step o w) r) i.
Proof.
  intros H r.
  pose proof (step_currentInQueue o w H r) as Hafter.
  split; [exact Hafter | now apply currentInQueue_currentAt].
Qed.

Lemma seed_currentInQueue (r : string) : currentInQueue (loadState (fun _ => None) r).
Proof.
  eexists. split; [now left | reflexivity].
Qed.

Lemma current_track_stays_in_queue_witness :
  currentInQueue
    (roomOf (step (command 0 (cmd_addTrack (track "t9")) "Z") (worldOf (queueRoom "t2"))) "R1").
Proof.
  apply (current_track_stays_in_queue (command 0 (cmd_addTrack (track "t9")) "Z")
                                      (worldOf (queueRoom "t2"))).
  apply worldOf_rooms; [|apply seed_currentInQueue].
  exists (track "t2"). split; [right; now left | reflexivity].
Defined.

Lemma NoDup_snoc (l : list string) (x : string) : NoDup l -> ~ In x l -> NoDup (l ++ [x]).
Proof.
  induction l as [|y l IH]; intros Hl Hx; cbn [app].
  - constructor; [intros [] | constructor].
  - inversion Hl as [|? ? Hy Hl']; subst. constructor.
    + rewrite in_app_iff. intros [H|[H|[]]]; [now apply Hy | subst; apply Hx; now left].
    + apply IH; [exact Hl' | intros H; apply Hx; now right].
Qed.

Lemma uniqueFrom_NoDup (l seen : list string) :
  NoDup (uniqueFrom seen l) /\ forall x, In x (uniqueFrom seen l) -> ~ In x seen.
Proof.
  revert seen. induction l as [|y l IH]; intros seen; cbn [uniqueFrom].
  - split; [constructor | intros x []].
  - destruct (includes y seen) eqn:E; [apply IH|].
    apply includes_not_In in E. destruct (IH (y :: seen)) as [Hnd Hout]. split.
    + constructor; [|exact Hnd]. intros Hin. apply (Hout y Hin). now left.
    + intros x [<-|Hx]; [exact E|]. intros Hs. apply (Hout x Hx). now right.
Qed.

Lemma handleServerEvent_NoDup (serverNow : Q) (c : Command) (userId : string) (w : World) :
  (forall r, NoDup (RoomState.playAllowedUserIds (roomOf w r))) ->
  forall r, NoDup (RoomState.playAllowedUserIds
                     (roomOf (handleServerEvent serverNow c userId w) r)).
Proof.
  intros H r. handler_cases H r.
  all: try exact Hs.
  - apply NoDup_snoc; [exact Hs|].
    match goal with E : negb (includes _ _) = true |- _ =>
      apply negb_true_iff, includes_not_In in E; exact E end.
  - apply NoDup_filter, Hs.
Qed.

Lemma step_NoDup (o : Op) (w : World) :
  (forall r, NoDup (RoomState.playAllowedUserIds (roomOf w r))) ->
  forall r, NoDup (RoomState.playAllowedUserIds (roomOf (step o w) r)).
Proof.
  intros H r. destruct o as [userName roomId userId | userId | serverNow c userId];
    cbn [step].
  - unfold connect.
    destruct (String.eqb roomId EmptyString); [exact (H r)|].
    pose proof (H roomId) as Hs. unfold roomOf in Hs.
    set (s := loadState (localStorage w) roomId) in *.
    destruct (Nat.eqb (length (RoomState.users s)) 0);
      [| destruct (String.eqb (RoomState.adminId s) EmptyString)].
    all: storage_cases r; try apply H.
    1, 2: constructor; [intros [] | constructor].
    apply uniqueFrom_NoDup.
  - unfold disconnect.
    destruct (activeRoomId w) as [roomId|]; [|apply H].
    pose proof (H roomId) as Hs. unfold roomOf in Hs.
    set (s := loadState (localStorage w) roomId) in *.
    set (users1 := filter _ (RoomState.users s)).
    destruct (String.eqb userId (RoomState.adminId s));
      [destruct users1 as [|newAdmin rest];
        [|destruct (negb (includes (User.id newAdmin) (RoomState.playAllowedUserIds s)))
            eqn:Einc]|].
    all: destruct (find _ (RoomState.users s)); storage_cases r; try apply H.
    all: try (constructor; fail).
    all: apply NoDup_filter; try exact Hs.
    all: apply NoDup_snoc; [exact Hs|].
    all: apply negb_true_iff, includes_not_In in Einc; exact Einc.
  - unfold emit. destruct (activeRoomId w), (mockState w); try apply H.
    now apply handleServerEvent_NoDup.
Qed.

(** X8: every operation keeps the permitted list of every stored room free of
    repeated ids. *)
Theorem permitted_ids_stay_distinct (o : Op) (w : World) :
  (forall r, NoDup (RoomState.playAllowedUserIds (roomOf w r))) ->
  forall r, NoDup (RoomState.playAllowedUserIds (roomOf (step o w) r)).
Proof. exact (step_NoDup o w). Qed.

Lemma permitted_ids_stay_distinct_witness :
  NoDup (RoomState.playAllowedUserIds
           (roomOf (step (command 0 (cmd_grantPlay "B") "A") (worldOf trioRoom)) "R1")).
Proof.
  apply (permitted_ids_stay_distinct (command 0 (cmd_grantPlay "B") "A") (worldOf trioRoom)).
  apply (worldOf_rooms (fun s => NoDup (RoomState.playAllowedUserIds s))).
  - repeat constructor; simpl; intuition discriminate.
  - intros r. constructor.
Defined.

(** The store after an operation, key by key, keeping the key's equation. *)
Ltac storage_cases_eq r :=
  unfold roomOf; simpl;
  repeat match goal with
  | |- context [loadState (setItem ?k ?v ?ls) r] =>
      rewrite (loadState_setItem k v ls r);
      destruct (String.eqb_spec r k); simpl
  end.

Lemma step_wellKeyed (o : Op) (w : World) :
  wellKeyed w -> wellKeyed (step o w).
Proof.
  unfold wellKeyed. intros H r.
  destruct o as [userName roomId userId | userId | serverNow c userId]; cbn [step].
  - unfold connect.
    destruct (String.eqb roomId EmptyString); [exact (H r)|].
    set (s := loadState (localStorage w) roomId) in *.
    destruct (Nat.eqb (length (RoomState.users s)) 0);
      [| destruct (String.eqb (RoomState.adminId s) EmptyString)].
    all: storage_cases_eq r; solve [apply H | congruence].
  - unfold disconnect.
    destruct (activeRoomId w) as [roomId|]; [|apply H].
    set (s := loadState (localStorage w) roomId) in *.
    set (users1 := filter _ (RoomState.users s)).
    destruct (String.eqb userId (RoomState.adminId s));
      [destruct users1 as [|newAdmin rest];
        [|destruct (negb (includes (User.id newAdmin) (RoomState.playAllowedUserIds s)))]|].
    all: destruct (find _ (RoomState.users s)); storage_cases_eq r;
      solve [apply H | congruence].
  - unfold emit. destruct (activeRoomId w) as [roomId|], (mockState w); try apply H.
    unfold handleServerEvent.
    destruct (activeRoomId w) as [roomId'|]; [|apply H].
    set (s := loadState (localStorage w) roomId') in *.
    destruct c; simpl.
    all: repeat match goal with
         | |- context [if ?b then _ else _] => destruct b eqn:?; simpl
         | |- context [match at_index ?l ?i with _ => _ end] =>
             destruct (at_index l i) eqn:?; simpl
         end.
    all: try (apply H).
    all: storage_cases_eq r; solve [apply H | congruence].
Qed.

(** X9: every operation keeps every snapshot stored under its own room id. *)
Theorem snapshots_stay_under_their_id (o : Op) (w : World) :
  wellKeyed w -> wellKeyed (step o w).
Proof. exact (step_wellKeyed o w). Qed.


Lemma snapshots_stay_under_their_id_witness :
  wellKeyed (step (join "Ann" "R1" "A") emptyWorld).
Proof.
  apply (snapshots_stay_under_their_id (join "Ann" "R1" "A") emptyWorld).
  intros r. reflexivity.
Defined.

Lemma handler_on_room (serverNow : Q) (c : Command) (userId roomId : string) (w : World) :
  activeRoomId w = Some roomId ->
  handleServerEvent serverNow c userId w
  = let s := roomOf w roomId in
    let w0 := setMockState s w in
    match c with
    | cmd_playSpecificTrack trackId =>
        if hasPermission userId s then
          if existsb (fun t => String.eqb (Track.id t) trackId) (RoomState.queue s) then
            let s' := RoomState.withPlayback (Some trackId) PLAYING (Some (serverNow + 800))
                                             (Some 0) s in
            broadcastGlobal (play_scheduled (Some trackId) (serverNow + 800) 0)
              (commit s' (setDb (Database.logPlay (RoomState.id s) trackId userId (db w0)) w0))
          else w0
        else w0
    | _ => handleServerEvent serverNow c userId w
    end.
Proof.
  intros E. destruct c; try reflexivity.
  unfold handleServerEvent. rewrite E. reflexivity.
Qed.

(** X10: [cmd:playSpecificTrack] from a permitted user for a track of the queue
    makes it the current track, PLAYING from position 0 at the instant
    [serverNow + 800], writes the play to the history, and sends the snapshot
    and then play:scheduled with that instant and offset 0; for a track id
    that no queue entry has the command is ignored. *)
Theorem play_specific_track (serverNow : Q) (userId roomId trackId : string) (w : World) :
  activeRoomId w = Some roomId ->
  let s := roomOf w roomId in
  let w' := handleServerEvent serverNow (cmd_playSpecificTrack trackId) userId w in
  In userId (RoomState.playAllowedUserIds s) ->
  ((exists t, In t (RoomState.queue s) /\ Track.id t = trackId) ->
   let playAt := serverNow + 800 in
   let s' := RoomState.withPlayback (Some trackId) PLAYING (Some playAt) (Some 0) s in
   saved w w' s'
   /\ sent w w' [room_update s'; play_scheduled (Some trackId) playAt 0]
   /\ db w' = Database.logPlay (RoomState.id s) trackId userId (db w)
   /\ elapsedAt playAt playAt == 0)
  /\ ((forall t, In t (RoomState.queue s) -> Track.id t <> trackId) -> ignored roomId w w').
Proof.
  intros Eroom s w' Hperm. subst w'. rewrite (handler_on_room _ _ _ _ _ Eroom).
  cbv zeta. fold s. apply includes_In in Hperm. unfold hasPermission. rewrite Hperm.
  split.
  - intros (t & Ht & Eid).
    assert (E : existsb (fun t => String.eqb (Track.id t) trackId) (RoomState.queue s) = true).
    { apply existsb_exists. exists t. split; [exact Ht | now apply String.eqb_eq]. }
    rewrite E. split; [split; reflexivity|].
    split; [unfold sent; simpl; now rewrite <- app_assoc|].
    split; [reflexivity|]. unfold elapsedAt. field.
  - intros Hnone.
    assert (E : existsb (fun t => String.eqb (Track.id t) trackId) (RoomState.queue s) = false).
    { apply not_true_is_false. intros E. apply existsb_exists in E.
      destruct E as (t & Ht & E). apply String.eqb_eq in E. now apply (Hnone t). }
    rewrite E. apply ignored_setMockState.
Qed.

Lemma play_specific_track_witness :
  let w := worldOf (queueRoom "t1") in
  RoomState.currentTrackId (roomOf (handleServerEvent 0 (cmd_playSpecificTrack "t3") "A" w) "R1")
  = Some "t3"%string
  /\ ignored "R1" w (handleServerEvent 0 (cmd_playSpecificTrack "t7") "A" w).
Proof.
  intros w.
  destruct (play_specific_track 0 "A" "R1" "t3" w eq_refl) as [Hplay _]; [now left|].
  destruct (play_specific_track 0 "A" "R1" "t7" w eq_refl) as [_ Hmiss]; [now left|].
  split.
  - destruct Hplay as ((Hls & _) & _).
    + exists (track "t3"). split; [right; right; now left | reflexivity].
    + unfold roomOf. rewrite Hls. reflexivity.
  - apply Hmiss. intros t [<-|[<-|[<-|[]]]]; discriminate.
Defined.

(** X11: a user who is neither permitted nor the admin changes nothing in the
    store or the database but through [cmd:addTrack]: every other command of
    such a user is ignored, and a ping only gets its pong. *)
Theorem unprivileged_user_can_only_add (serverNow : Q) (c : Command) (userId roomId : string)
    (w : World) :
  activeRoomId w = Some roomId ->
  let s := roomOf w roomId in
  let w' := handleServerEvent serverNow c userId w in
  ~ In userId (RoomState.playAllowedUserIds s) ->
  userId <> RoomState.adminId s ->
  match c with
  | cmd_addTrack _ => True
  | sync_ping clientSendTime =>
      localStorage w' = localStorage w /\ db w' = db w
      /\ outbox w' = outbox w ++ [(Local, sync_pong clientSendTime serverNow serverNow)]
  | _ => ignored roomId w w'
  end.
Proof.
  intros Eroom s w' Hperm Hadmin. subst w'.
  unfold handleServerEvent. rewrite Eroom. fold (roomOf w roomId). fold s.
  apply includes_not_In in Hperm. apply not_eq_sym, String.eqb_neq in Hadmin.
  unfold hasPermission, isAdmin. rewrite Hperm, Hadmin.
  destruct c; cbn [andb]; try apply ignored_setMockState; try exact I.
  repeat split.
Qed.

Lemma unprivileged_user_can_only_add_witness :
  ignored "R1" (worldOf (playingRoom 1000))
          (handleServerEvent 5000 (cmd_seek 30) "Z" (worldOf (playingRoom 1000)))
  /\ ignored "R1" (worldOf (playingRoom 1000))
             (handleServerEvent 5000 cmd_pause "Z" (worldOf (playingRoom 1000))).
Proof.
  split.
  - apply (unprivileged_user_can_only_add 5000 (cmd_seek 30) "Z" "R1"
             (worldOf (playingRoom 1000)) eq_refl).
    + simpl. intros [E|[E|[]]]; discriminate.
    + discriminate.
  - apply (unprivileged_user_can_only_add 5000 cmd_pause "Z" "R1"
             (worldOf (playingRoom 1000)) eq_refl).
    + simpl. intros [E|[E|[]]]; discriminate.
    + discriminate.
Defined.

(** X12: [cmd:addTrack] asks for no permission: from any submitter it appends the
    track to the queue, leaves every other field of the room as it was, and
    saves and sends the snapshot; a shared file is also entered in the song
    store, under its id, unless that id is taken. *)
Theorem add_track_is_open (serverNow : Q) (newTrack : Track.t) (userId roomId : string)
    (w : World) :
  activeRoomId w = Some roomId ->
  let s := roomOf w roomId in
  let w' := handleServerEvent serverNow (cmd_addTrack newTrack) userId w in
  let s' := RoomState.withQueue (RoomState.queue s ++ [newTrack]) s in
  saved w w' s'
  /\ sent w w' [room_update s']
  /\ (Track.type newTrack = stream -> db w' = db w)
  /\ (Track.type newTrack = shared_file ->
      Database.users (db w') = Database.users (db w)
      /\ Database.room_permissions (db w') = Database.room_permissions (db w)
      /\ Database.play_history (db w') = Database.play_history (db w)
      /\ (Database.hasKey SongRecord.id (Track.id newTrack) (Database.songs (db w)) = true ->
          Database.songs (db w') = Database.songs (db w))
      /\ (Database.hasKey SongRecord.id (Track.id newTrack) (Database.songs (db w)) = false ->
          exists r, Database.songs (db w') = Database.songs (db w) ++ [r]
                    /\ SongRecord.id r = Track.id newTrack
                    /\ SongRecord.uploadedBy r = userId
                    /\ SongRecord.fileId r = Track.fileId newTrack)).
Proof.
  intros Eroom s w' s'. subst w'.
  unfold handleServerEvent. rewrite Eroom. fold (roomOf w roomId). fold s.
  split; [split; reflexivity|]. split; [reflexivity|]. split.
  - intros E. rewrite E. reflexivity.
  - intros E. rewrite E. cbn [commit saveState broadcastGlobal setDb db setMockState
                              Database.addSong Database.users Database.room_permissions
                              Database.play_history Database.songs].
    unfold Database.add. cbn [SongRecord.id].
    repeat split.
    + intros Hk. now rewrite Hk.
    + intros Hk. rewrite Hk. eexists. split; [reflexivity|]. repeat split.
Qed.

Lemma add_track_is_open_witness :
  map Track.id
    (RoomState.queue
       (roomOf (handleServerEvent 0 (cmd_addTrack (track "t9")) "Z" (worldOf soloRoom)) "R1"))
  = ["t1"; "t9"]%string.
Proof.
  destruct (add_track_is_open 0 (track "t9") "Z" "R1" (worldOf soloRoom) eq_refl)
    as ((Hls & _) & _).
  unfold roomOf. rewrite Hls. reflexivity.
Defined.

Lemma handler_keeps_active (serverNow : Q) (c : Command) (userId : string) (w : World) :
  activeRoomId (handleServerEvent serverNow c userId w) = activeRoomId w.
Proof.
  unfold handleServerEvent. destruct (activeRoomId w) as [roomId|] eqn:E; [|exact E].
  destruct c; simpl;
    repeat match goal with
           | |- context [if ?b then _ else _] => destruct b; simpl
           | |- context [match at_index ?l ?i with _ => _ end] => destruct (at_index l i); simpl
           end; exact E.
Qed.

Lemma pause_run (serverNow : Q) (userId roomId : string) (w : World) :
  activeRoomId w = Some roomId ->
  let s := roomOf w roomId in
  In userId (RoomState.playAllowedUserIds s) ->
  RoomState.playbackState s = PLAYING ->
  let position :=
    match RoomState.startAtServerTime s with
    | Some startAt => if Qeq_bool startAt 0 then 0 else (serverNow - startAt) / 1000
    | None => 0
    end in
  let s' := RoomState.withPlayback (RoomState.currentTrackId s) PAUSED None (Some position) s in
  handleServerEvent serverNow cmd_pause userId w
  = broadcastGlobal (pause_sync serverNow position) (commit s' (setMockState s w)).
Proof.
  intros Eroom s Hperm Hplaying. unfold handleServerEvent. rewrite Eroom.
  fold (roomOf w roomId). fold s.
  apply includes_In in Hperm. unfold hasPermission. now rewrite Hperm, Hplaying.
Qed.

Lemma play_run (serverNow : Q) (userId roomId : string) (w : World) :
  activeRoomId w = Some roomId ->
  let s := roomOf w roomId in
  In userId (RoomState.playAllowedUserIds s) ->
  RoomState.playbackState s <> PLAYING ->
  exists d,
    handleServerEvent serverNow cmd_play userId w
    = broadcastGlobal
        (play_scheduled (RoomState.currentTrackId s) (serverNow + 500)
                        (orZero (RoomState.pausedAtPosition s)))
        (commit (RoomState.withPlayback (RoomState.currentTrackId s) PLAYING
                   (Some (serverNow + 500 - orZero (RoomState.pausedAtPosition s) * 1000))
                   (RoomState.pausedAtPosition s) s)
                (setDb d (setMockState s w))).
Proof.
  intros Eroom s Hperm Hstate. unfold handleServerEvent. rewrite Eroom.
  fold (roomOf w roomId). fold s.
  apply includes_In in Hperm. unfold hasPermission. rewrite Hperm.
  assert (Hnp : PlaybackState_eqb (RoomState.playbackState s) PLAYING = false)
    by (destruct (RoomState.playbackState s); [reflexivity | now elim Hstate | reflexivity]).
  rewrite Hnp. eexists. reflexivity.
Qed.

Lemma seek_run (serverNow position : Q) (userId roomId : string) (w : World) :
  activeRoomId w = Some roomId ->
  let s := roomOf w roomId in
  In userId (RoomState.playAllowedUserIds s) ->
  handleServerEvent serverNow (cmd_seek position) userId w
  = broadcastGlobal (seek_sync position (serverNow + 300))
      (commit (RoomState.withPlayback (RoomState.currentTrackId s) (RoomState.playbackState s)
                 (if PlaybackState_eqb (RoomState.playbackState s) PLAYING
                  then Some (serverNow + 300 - position * 1000)
                  else RoomState.startAtServerTime s)
                 (Some position) s)
              (setMockState s w)).
Proof.
  intros Eroom s Hperm. unfold handleServerEvent. rewrite Eroom.
  fold (roomOf w roomId). fold s.
  apply includes_In in Hperm. unfold hasPermission. now rewrite Hperm.
Qed.

Lemma roomOf_committed (e : Event) (s' : RoomState.t) (w0 : World) :
  roomOf (broadcastGlobal e (commit s' w0)) (RoomState.id s') = s'.
Proof.
  unfold roomOf. cbn [broadcastGlobal commit saveState localStorage].
  now rewrite loadState_setItem, String.eqb_refl.
Qed.

Lemma roomOf_committed_at (e : Event) (s' : RoomState.t) (w0 : World) (roomId : string) :
  RoomState.id s' = roomId ->
  roomOf (broadcastGlobal e (commit s' w0)) roomId = s'.
Proof. intros <-. apply roomOf_committed. Qed.

(** ** C10: pause before the start instant *)

(** C10: a pause by a permitted user of a PLAYING room records as
    [pausedAtPosition], and sends in pause:sync, exactly
    [(pauseAt - startAtServerTime) / 1000], with no lower clamp: the position
    is below zero when the pause is handled before the start instant, and
    the play that follows takes it as it is into its start time,
    [(t2 + 500) - position * 1000], which then lies after the instant
    [t2 + 500] the play is scheduled for.  With a null start time the
    position recorded is 0.  The handler tells a start time from null by its
    truth value, so the start time is a number other than 0. *)
Theorem pause_records_unclamped_elapsed (t1 t2 : Q) (u1 u2 roomId : string) (w : World) :
  activeRoomId w = Some roomId ->
  let s := roomOf w roomId in
  let w1 := handleServerEvent t1 cmd_pause u1 w in
  let w2 := handleServerEvent t2 cmd_play u2 w1 in
  In u1 (RoomState.playAllowedUserIds s) ->
  RoomState.playbackState s = PLAYING ->
  (forall startAt, RoomState.startAtServerTime s = Some startAt -> ~ startAt == 0 ->
     let position := elapsedAt t1 startAt in
     let s1 := RoomState.withPlayback (RoomState.currentTrackId s) PAUSED None
                                      (Some position) s in
     saved w w1 s1
     /\ sent w w1 [room_update s1; pause_sync t1 position]
     /\ (t1 < startAt -> position < 0)
     /\ (RoomState.id s = roomId -> In u2 (RoomState.playAllowedUserIds s) ->
         exists startAt' startOffset,
           RoomState.startAtServerTime (roomOf w2 roomId) = Some startAt'
           /\ RoomState.playbackState (roomOf w2 roomId) = PLAYING
           /\ RoomState.pausedAtPosition (roomOf w2 roomId) = Some position
           /\ startAt' == (t2 + 500) - position * 1000
           /\ In (Global, play_scheduled (RoomState.currentTrackId s) (t2 + 500) startOffset)
                 (outbox w2)
           /\ startOffset == position
           /\ (t1 < startAt -> t2 + 500 < startAt')))
  /\ (RoomState.startAtServerTime s = None ->
      let s1 := RoomState.withPlayback (RoomState.currentTrackId s) PAUSED None (Some 0) s in
      saved w w1 s1 /\ sent w w1 [room_update s1; pause_sync t1 0]).
Proof.
  intros Eroom s w1 w2 Hu1 Hplaying.
  pose proof (pause_run t1 u1 roomId w Eroom Hu1 Hplaying) as E1.
  cbv zeta in E1. fold s in E1. fold w1 in E1.
  split.
  - intros startAt Hstart Hnz position s1.
    rewrite Hstart in E1.
    assert (Ez : Qeq_bool startAt 0 = false).
    { destruct (Qeq_bool startAt 0) eqn:E; [|reflexivity].
      apply Qeq_bool_iff in E. contradiction. }
    rewrite Ez in E1. fold (elapsedAt t1 startAt) in E1. fold position in E1. fold s1 in E1.
    assert (Hneg : t1 < startAt -> position < 0).
    { intros Hlt. unfold position, elapsedAt.
      apply Qlt_shift_div_r; [reflexivity | lra]. }
    split; [rewrite E1; split; reflexivity|].
    split; [rewrite E1; unfold sent;
            cbn [broadcastGlobal commit saveState setMockState outbox map];
            now rewrite <- app_assoc|].
    split; [exact Hneg|].
    intros Eid Hu2.
    assert (Eroom1 : activeRoomId w1 = Some roomId)
      by (unfold w1; now rewrite handler_keeps_active).
    assert (Es1 : roomOf w1 roomId = s1).
    { rewrite E1. apply roomOf_committed_at. exact Eid. }
    destruct (play_run t2 u2 roomId w1 Eroom1) as [d E2].
    + rewrite Es1. exact Hu2.
    + rewrite Es1. discriminate.
    + rewrite Es1 in E2. subst w2. rewrite E2.
      rewrite !(roomOf_committed_at _ _ _ roomId) by exact Eid.
      pose proof (orZero_value position) as Hz.
      eexists. eexists.
      split; [reflexivity|]. split; [reflexivity|]. split; [reflexivity|].
      change (RoomState.pausedAtPosition s1) with (Some position).
      split; [now rewrite Hz|].
      split; [cbn [broadcastGlobal outbox]; apply in_or_app; right; now left|].
      split; [exact Hz|].
      intros Hlt. apply Hneg in Hlt. rewrite Hz. lra.
  - intros Hnone s1. rewrite Hnone in E1. fold s1 in E1.
    split; [rewrite E1; split; reflexivity|].
    rewrite E1. unfold sent.
    cbn [broadcastGlobal commit saveState setMockState outbox map].
    now rewrite <- app_assoc.
Qed.

Lemma pause_records_unclamped_elapsed_witness :
  let w := worldOf (playingRoom 10000) in
  let w1 := handleServerEvent 9800 cmd_pause "A" w in
  let w2 := handleServerEvent 20000 cmd_play "B" w1 in
  RoomState.pausedAtPosition (roomOf w1 "R1") = Some (elapsedAt 9800 10000)
  /\ elapsedAt 9800 10000 < 0
  /\ exists startAt',
       RoomState.startAtServerTime (roomOf w2 "R1") = Some startAt'
       /\ startAt' == 20700.
Proof.
  intros w w1 w2.
  destruct (pause_records_unclamped_elapsed 9800 20000 "A" "B" "R1" w eq_refl) as [Hnum _].
  - now left.
  - reflexivity.
  - destruct (Hnum 10000 eq_refl) as (Hsaved & _ & Hneg & Hplay); [discriminate|].
    split.
    + apply saved_roomOf in Hsaved. simpl in Hsaved. unfold w1. now rewrite Hsaved.
    + split; [apply Hneg; reflexivity|].
      destruct Hplay as (startAt' & off & Hs & _ & _ & Hv & _); [reflexivity | right; now left|].
      exists startAt'. split; [exact Hs|]. rewrite Hv. reflexivity.
Defined.

(** X13: pause and play compose to a resume: after a pause at [t1] of a room that
    plays since [startAt] and a play at [t2], both from permitted users, the
    room is PLAYING the same track with a start time that puts the position,
    at the instant [t2 + 500] the play is scheduled for, where the pause
    found it. *)
Theorem pause_then_play_resumes (t1 t2 startAt : Q) (u1 u2 roomId : string) (w : World) :
  activeRoomId w = Some roomId ->
  let s := roomOf w roomId in
  RoomState.id s = roomId ->
  RoomState.playbackState s = PLAYING ->
  RoomState.startAtServerTime s = Some startAt ->
  ~ startAt == 0 ->
  In u1 (RoomState.playAllowedUserIds s) ->
  In u2 (RoomState.playAllowedUserIds s) ->
  let w2 := handleServerEvent t2 cmd_play u2 (handleServerEvent t1 cmd_pause u1 w) in
  exists startAt',
    RoomState.startAtServerTime (roomOf w2 roomId) = Some startAt'
    /\ RoomState.playbackState (roomOf w2 roomId) = PLAYING
    /\ RoomState.currentTrackId (roomOf w2 roomId) = RoomState.currentTrackId s
    /\ elapsedAt (t2 + 500) startAt' == elapsedAt t1 startAt.
Proof.
  intros Eroom s Eid Hplaying Hstart Hnz Hu1 Hu2 w2.
  pose proof (pause_run t1 u1 roomId w Eroom Hu1 Hplaying) as E1.
  cbv zeta in E1. fold s in E1. rewrite Hstart in E1.
  assert (Ez : Qeq_bool startAt 0 = false).
  { destruct (Qeq_bool startAt 0) eqn:E; [|reflexivity].
    apply Qeq_bool_iff in E. contradiction. }
  rewrite Ez in E1.
  set (s1 := RoomState.withPlayback (RoomState.currentTrackId s) PAUSED None
               (Some ((t1 - startAt) / 1000)) s) in *.
  set (w1 := handleServerEvent t1 cmd_pause u1 w) in *.
  assert (Eroom1 : activeRoomId w1 = Some roomId)
    by (unfold w1; now rewrite handler_keeps_active).
  assert (Es1 : roomOf w1 roomId = s1).
  { rewrite E1. apply roomOf_committed_at. exact Eid. }
  destruct (play_run t2 u2 roomId w1 Eroom1) as [d E2].
  - rewrite Es1. exact Hu2.
  - rewrite Es1. discriminate.
  - rewrite Es1 in E2. subst w2. rewrite E2.
    rewrite !(roomOf_committed_at _ _ _ roomId) by exact Eid.
    eexists. split; [reflexivity|]. split; [reflexivity|]. split; [reflexivity|].
    unfold elapsedAt, s1. cbn [RoomState.pausedAtPosition RoomState.withPlayback].
    rewrite orZero_value. field.
Qed.

Lemma pause_then_play_resumes_witness :
  let w := worldOf (playingRoom 1000) in
  exists startAt',
    RoomState.startAtServerTime
      (roomOf (handleServerEvent 90000 cmd_play "B" (handleServerEvent 31000 cmd_pause "A" w))
              "R1") = Some startAt'
    /\ elapsedAt (90000 + 500) startAt' == 30.
Proof.
  intros w.
  destruct (pause_then_play_resumes 31000 90000 1000 "A" "B" "R1" w eq_refl eq_refl eq_refl
              eq_refl) as (startAt' & Hs & _ & _ & Hel).
  - discriminate.
  - now left.
  - right. now left.
  - exists startAt'. split; [exact Hs|]. rewrite Hel. reflexivity.
Defined.

(** X14: a seek on a room that is not PLAYING moves the paused position only (the
    state and the start time stay), and the play that follows starts there:
    at the instant [t2 + 500] it is scheduled for, the position is the one
    sought. *)
Theorem seek_paused_then_play (t1 t2 position : Q) (u1 u2 roomId : string) (w : World) :
  activeRoomId w = Some roomId ->
  let s := roomOf w roomId in
  RoomState.id s = roomId ->
  RoomState.playbackState s <> PLAYING ->
  In u1 (RoomState.playAllowedUserIds s) ->
  In u2 (RoomState.playAllowedUserIds s) ->
  let w1 := handleServerEvent t1 (cmd_seek position) u1 w in
  let w2 := handleServerEvent t2 cmd_play u2 w1 in
  roomOf w1 roomId
  = RoomState.withPlayback (RoomState.currentTrackId s) (RoomState.playbackState s)
      (RoomState.startAtServerTime s) (Some position) s
  /\ sent w w1 [room_update (roomOf w1 roomId); seek_sync position (t1 + 300)]
  /\ exists startAt',
       RoomState.startAtServerTime (roomOf w2 roomId) = Some startAt'
       /\ RoomState.playbackState (roomOf w2 roomId) = PLAYING
       /\ elapsedAt (t2 + 500) startAt' == position.
Proof.
  intros Eroom s Eid Hstate Hu1 Hu2 w1 w2.
  pose proof (seek_run t1 position u1 roomId w Eroom Hu1) as E1. fold s in E1.
  assert (Hnp : PlaybackState_eqb (RoomState.playbackState s) PLAYING = false)
    by (destruct (RoomState.playbackState s); [reflexivity | now elim Hstate | reflexivity]).
  rewrite Hnp in E1. fold w1 in E1.
  set (s1 := RoomState.withPlayback (RoomState.currentTrackId s) (RoomState.playbackState s)
               (RoomState.startAtServerTime s) (Some position) s) in *.
  assert (Eroom1 : activeRoomId w1 = Some roomId)
    by (unfold w1; now rewrite handler_keeps_active).
  assert (Es1 : roomOf w1 roomId = s1).
  { rewrite E1. apply roomOf_committed_at. exact Eid. }
  split; [exact Es1|]. split.
  { rewrite Es1, E1. unfold sent. simpl. now rewrite <- app_assoc. }
  destruct (play_run t2 u2 roomId w1 Eroom1) as [d E2].
  - rewrite Es1. exact Hu2.
  - rewrite Es1. exact Hstate.
  - rewrite Es1 in E2. subst w2. rewrite E2.
    rewrite !(roomOf_committed_at _ _ _ roomId) by exact Eid.
    eexists. split; [reflexivity|]. split; [reflexivity|].
    unfold elapsedAt, s1. cbn [RoomState.pausedAtPosition RoomState.withPlayback].
    rewrite orZero_value. field.
Qed.

Lemma seek_paused_then_play_witness :
  let w := worldOf (pausedRoom 10) in
  exists startAt',
    RoomState.startAtServerTime
      (roomOf (handleServerEvent 9000 cmd_play "A" (handleServerEvent 5000 (cmd_seek 75) "B" w))
              "R1") = Some startAt'
    /\ elapsedAt (9000 + 500) startAt' == 75.
Proof.
  intros w.
  destruct (seek_paused_then_play 5000 9000 75 "B" "A" "R1" w eq_refl eq_refl)
    as (_ & _ & startAt' & Hs & _ & Hel).
  - discriminate.
  - right. now left.
  - now left.
  - exists startAt'. split; [exact Hs | exact Hel].
Defined.

Lemma roomOf_commit_at (s' : RoomState.t) (w0 : World) (roomId : string) :
  RoomState.id s' = roomId -> roomOf (commit s' w0) roomId = s'.
Proof.
  intros <-. unfold roomOf. cbn [broadcastGlobal commit saveState localStorage].
  now rewrite loadState_setItem, String.eqb_refl.
Qed.

(** X15: adding a track and asking for it, in that order, plays it: after
    [cmd:addTrack] of a track, [cmd:playSpecificTrack] of its id from a
    permitted user makes it the current track, PLAYING.  In the other order,
    for an id that is not in the queue yet, the play is ignored and the add
    leaves the current track and the playback state as they were. *)
Theorem add_then_play_specific (t1 t2 : Q) (newTrack : Track.t) (adder userId roomId : string)
    (w : World) :
  activeRoomId w = Some roomId ->
  let s := roomOf w roomId in
  RoomState.id s = roomId ->
  In userId (RoomState.playAllowedUserIds s) ->
  let play := cmd_playSpecificTrack (Track.id newTrack) in
  let added := handleServerEvent t1 (cmd_addTrack newTrack) adder w in
  (let s2 := roomOf (handleServerEvent t2 play userId added) roomId in
   RoomState.currentTrackId s2 = Some (Track.id newTrack)
   /\ RoomState.playbackState s2 = PLAYING
   /\ RoomState.queue s2 = RoomState.queue s ++ [newTrack])
  /\ ((forall t, In t (RoomState.queue s) -> Track.id t <> Track.id newTrack) ->
      let s2 := roomOf (handleServerEvent t2 (cmd_addTrack newTrack) adder
                          (handleServerEvent t1 play userId w)) roomId in
      RoomState.currentTrackId s2 = RoomState.currentTrackId s
      /\ RoomState.playbackState s2 = RoomState.playbackState s
      /\ RoomState.queue s2 = RoomState.queue s ++ [newTrack]).
Proof.
  intros Eroom s Eid Hperm play added.
  assert (Hadd : forall t w0, activeRoomId w0 = Some roomId ->
            RoomState.id (roomOf w0 roomId) = roomId ->
            roomOf (handleServerEvent t (cmd_addTrack newTrack) adder w0) roomId
            = RoomState.withQueue (RoomState.queue (roomOf w0 roomId) ++ [newTrack])
                                  (roomOf w0 roomId)).
  { intros t w0 E0 Eid0. unfold handleServerEvent. rewrite E0.
    fold (roomOf w0 roomId). cbv zeta. apply roomOf_commit_at. exact Eid0. }
  split.
  - intros s2. subst s2.
    assert (Eadded : roomOf added roomId
                     = RoomState.withQueue (RoomState.queue s ++ [newTrack]) s)
      by (apply Hadd; assumption).
    assert (Eroom1 : activeRoomId added = Some roomId)
      by (unfold added; now rewrite handler_keeps_active).
    unfold play. rewrite (handler_on_room _ _ _ _ _ Eroom1). cbv zeta iota beta.
    rewrite Eadded.
    unfold hasPermission. cbn [RoomState.playAllowedUserIds RoomState.withQueue
                               RoomState.queue].
    apply includes_In in Hperm. rewrite Hperm.
    rewrite existsb_app. cbn [existsb]. rewrite String.eqb_refl.
    cbn [orb]. rewrite orb_true_r.
    rewrite !(roomOf_committed_at _ _ _ roomId) by exact Eid. repeat split.
  - intros Hnew s2. subst s2.
    assert (E : existsb (fun t => String.eqb (Track.id t) (Track.id newTrack))
                        (RoomState.queue s) = false).
    { apply not_true_is_false. intros E. apply existsb_exists in E.
      destruct E as (t & Ht & E). apply String.eqb_eq in E. now apply (Hnew t). }
    assert (Eplay : handleServerEvent t1 play userId w = setMockState s w).
    { unfold play. rewrite (handler_on_room _ _ _ _ _ Eroom). cbv zeta iota beta. fold s.
      apply includes_In in Hperm. unfold hasPermission. now rewrite Hperm, E. }
    rewrite Eplay, Hadd; [repeat split | exact Eroom | exact Eid].
Qed.

Lemma add_then_play_specific_witness :
  let w := worldOf soloRoom in
  RoomState.currentTrackId
    (roomOf (handleServerEvent 2 (cmd_playSpecificTrack "t9") "A"
               (handleServerEvent 1 (cmd_addTrack (track "t9")) "Z" w)) "R1")
  = Some "t9"%string
  /\ RoomState.currentTrackId
       (roomOf (handleServerEvent 2 (cmd_addTrack (track "t9")) "Z"
                  (handleServerEvent 1 (cmd_playSpecificTrack "t9") "A" w)) "R1")
     = Some "t1"%string.
Proof.
  intros w.
  destruct (add_then_play_specific 1 2 (track "t9") "Z" "A" "R1" w eq_refl eq_refl)
    as [Hfirst Hsecond]; [now left|].
  split.
  - apply Hfirst.
  - apply Hsecond. intros t [<-|[]]. discriminate.
Defined.

(** * The database stores *)

Section StoreLemmas.
Context {A : Type} (key : A -> string).

Lemma hasKey_true (k : string) (l : list A) :
  Database.hasKey key k l = true <-> exists y, In y l /\ key y = k.
Proof.
  unfold Database.hasKey. rewrite existsb_exists.
  split; intros (y & Hy & E); exists y; (split; [exact Hy|]); now apply String.eqb_eq.
Qed.

Lemma In_put (r x : A) (l : list A) :
  In x (Database.put key r l) <-> x = r \/ (In x l /\ key x <> key r).
Proof.
  unfold Database.put. destruct (Database.hasKey key (key r) l) eqn:Ek.
  - apply hasKey_true in Ek. destruct Ek as (y0 & Hy0 & Ey0).
    rewrite in_map_iff. split.
    + intros (y & E & Hy). destruct (String.eqb_spec (key y) (key r)) as [Ey|Ny].
      * left. now symmetry.
      * right. subst x. now split.
    + intros [->|[Hx Nx]].
      * exists y0. split; [|exact Hy0]. apply String.eqb_eq in Ey0. now rewrite Ey0.
      * exists x. split; [|exact Hx]. apply String.eqb_neq in Nx. now rewrite Nx.
  - assert (Hnone : forall y, In y l -> key y <> key r).
    { intros y Hy E. apply not_true_iff_false in Ek. apply Ek, hasKey_true. now exists y. }
    rewrite in_app_iff. cbn [In]. split.
    + intros [Hx|[<-|[]]]; [right; split; [exact Hx | now apply Hnone] | now left].
    + intros [->|[Hx _]]; [right; now left | now left].
Qed.

Lemma In_delete (k : string) (x : A) (l : list A) :
  In x (Database.delete key k l) <-> In x l /\ key x <> k.
Proof.
  unfold Database.delete. now rewrite filter_In, negb_true_iff, String.eqb_neq.
Qed.

Lemma NoDup_keys_put (r : A) (l : list A) :
  NoDup (map key l) -> NoDup (map key (Database.put key r l)).
Proof.
  intros Hl. unfold Database.put. destruct (Database.hasKey key (key r) l) eqn:Ek.
  - replace (map key (map (fun r' => if String.eqb (key r') (key r) then r else r') l))
      with (map key l); [exact Hl|].
    rewrite map_map. apply map_ext. intros y.
    destruct (String.eqb_spec (key y) (key r)); congruence.
  - rewrite map_app. cbn [map]. apply NoDup_snoc; [exact Hl|].
    intros Hin. apply in_map_iff in Hin. destruct Hin as (y & E & Hy).
    apply not_true_iff_false in Ek. apply Ek, hasKey_true. now exists y.
Qed.

End StoreLemmas.

Lemma getPermissions_In (r u : string) (d : Database.t) :
  In u (Database.getPermissions r d)
  <-> exists p, In p (Database.room_permissions d)
                /\ PermissionRecord.roomId p = r
                /\ PermissionRecord.canPlay p = true
                /\ PermissionRecord.userId p = u.
Proof.
  unfold Database.getPermissions. rewrite in_map_iff. split.
  - intros (p & E & Hp). apply filter_In in Hp. destruct Hp as [Hp Hc].
    apply andb_true_iff in Hc. destruct Hc as [Hr Hc]. apply String.eqb_eq in Hr.
    exists p. repeat split; assumption.
  - intros (p & Hp & Hr & Hc & E). exists p. split; [exact E|].
    apply filter_In. split; [exact Hp|]. apply andb_true_iff.
    split; [now apply String.eqb_eq | exact Hc].
Qed.

Lemma setPermission_grants (r u : string) (d : Database.t) :
  In u (Database.getPermissions r (Database.setPermission r u true d)).
Proof.
  apply getPermissions_In. eexists. split.
  - cbn [Database.setPermission Database.room_permissions].
    apply (In_put PermissionRecord.id). left. reflexivity.
  - repeat split.
Qed.

Lemma setPermission_keyed (r u : string) (b : bool) (d : Database.t) :
  permissionsKeyed d -> permissionsKeyed (Database.setPermission r u b d).
Proof.
  intros H p Hp. cbn [Database.setPermission Database.room_permissions] in Hp.
  destruct b.
  - apply (In_put PermissionRecord.id) in Hp. destruct Hp as [->|[Hp _]];
      [reflexivity | now apply H].
  - apply (In_delete PermissionRecord.id) in Hp. now apply H.
Qed.

Lemma setPermission_revokes (r u : string) (d : Database.t) :
  permissionsKeyed d ->
  ~ In u (Database.getPermissions r (Database.setPermission r u false d)).
Proof.
  intros H Hin. apply getPermissions_In in Hin. destruct Hin as (p & Hp & Hr & _ & Hu).
  cbn [Database.setPermission Database.room_permissions] in Hp.
  apply (In_delete PermissionRecord.id) in Hp. destruct Hp as [Hp Hk].
  apply Hk. rewrite (H p Hp), Hr, Hu. reflexivity.
Qed.

Lemma setPermission_others (r u r' u' : string) (b : bool) (d : Database.t) :
  permissionsKeyed d ->
  permissionKey r' u' <> permissionKey r u ->
  (In u' (Database.getPermissions r' (Database.setPermission r u b d))
   <-> In u' (Database.getPermissions r' d)).
Proof.
  intros H Hk. rewrite !getPermissions_In.
  cbn [Database.setPermission Database.room_permissions].
  split; intros (p & Hp & Hr & Hc & Hu); exists p; (split; [|now repeat split]).
  - destruct b.
    + apply (In_put PermissionRecord.id) in Hp. destruct Hp as [->|[Hp _]]; [|exact Hp].
      cbn in Hr, Hu. subst. now elim Hk.
    + apply (In_delete PermissionRecord.id) in Hp. apply Hp.
  - assert (Hid : PermissionRecord.id p <> permissionKey r u)
      by (rewrite (H p Hp), Hr, Hu; exact Hk).
    destruct b.
    + apply (In_put PermissionRecord.id). right. split; [exact Hp | exact Hid].
    + apply (In_delete PermissionRecord.id). split; [exact Hp | exact Hid].
Qed.

(** X16: permissions round-trip through the database: after [setPermission] with
    [true] the user is among the permitted of the room, after [false] it is
    not, in a store whose records sit under the keys [setPermission] gives
    them, which every [setPermission] keeps so. *)
Theorem permission_round_trip (r u : string) (d : Database.t) :
  In u (Database.getPermissions r (Database.setPermission r u true d))
  /\ (permissionsKeyed d ->
      ~ In u (Database.getPermissions r (Database.setPermission r u false d))
      /\ forall b, permissionsKeyed (Database.setPermission r u b d)).
Proof.
  split; [apply setPermission_grants|].
  intros H. split; [now apply setPermission_revokes|].
  intros b. now apply setPermission_keyed.
Qed.

Lemma permission_round_trip_witness :
  let d := Database.setPermission "R1" "B" true
             (Database.setPermission "R1" "A" true Database.empty) in
  ~ In "A"%string (Database.getPermissions "R1" (Database.setPermission "R1" "A" false d)).
Proof.
  intros d. apply (proj2 (permission_round_trip "R1" "A" d)).
  intros p [<-|[<-|[]]]; reflexivity.
Defined.

(** X17: [setPermission] for one room and user leaves the permission of every
    other room and user as it was, as long as the two keys
    [roomId_userId] differ. *)
Theorem permission_of_others_kept (r u r' u' : string) (b : bool) (d : Database.t) :
  permissionsKeyed d ->
  permissionKey r' u' <> permissionKey r u ->
  (In u' (Database.getPermissions r' (Database.setPermission r u b d))
   <-> In u' (Database.getPermissions r' d)).
Proof. apply setPermission_others. Qed.

Lemma permission_of_others_kept_witness :
  let d := Database.setPermission "R1" "B" true
             (Database.setPermission "R1" "A" true Database.empty) in
  In "B"%string (Database.getPermissions "R1" (Database.setPermission "R1" "A" false d)).
Proof.
  intros d. apply (permission_of_others_kept "R1" "A" "R1" "B" false d).
  - intros p [<-|[<-|[]]]; reflexivity.
  - discriminate.
  - apply setPermission_grants.
Defined.

(** X18: the key [roomId_userId] does not tell a room from a user: when the keys
    of two rooms' users coincide, [setPermission] for the one, granting or
    revoking, leaves the other without permission in its room. *)
Theorem permission_key_collision (r u r' u' : string) (b : bool) (d : Database.t) :
  permissionsKeyed d ->
  permissionKey r' u' = permissionKey r u ->
  r' <> r ->
  ~ In u' (Database.getPermissions r' (Database.setPermission r u b d)).
Proof.
  intros H Hk Hr Hin. apply getPermissions_In in Hin.
  destruct Hin as (p & Hp & Er & _ & Eu).
  cbn [Database.setPermission Database.room_permissions] in Hp.
  assert (Hold : In p (Database.room_permissions d) ->
                 PermissionRecord.id p = permissionKey r u)
    by (intros Hd; now rewrite (H p Hd), Er, Eu).
  destruct b.
  - apply (In_put PermissionRecord.id) in Hp. destruct Hp as [->|[Hp Hne]].
    + now apply Hr.
    + now apply Hne, Hold.
  - apply (In_delete PermissionRecord.id) in Hp. destruct Hp as [Hp Hne].
    now apply Hne, Hold.
Qed.

Lemma permission_key_collision_witness :
  let d := Database.setPermission "a_b" "c" true Database.empty in
  In "c"%string (Database.getPermissions "a_b" d)
  /\ ~ In "c"%string (Database.getPermissions "a_b" (Database.setPermission "a" "b_c" true d)).
Proof.
  intros d. split; [apply setPermission_grants|].
  apply (permission_key_collision "a" "b_c" "a_b" "c" true d).
  - intros p [<-|[]]. reflexivity.
  - reflexivity.
  - discriminate.
Defined.

(** X19: the user store keeps one record per user id: [upsertUser] leaves the ids
    of the store distinct, and afterwards the only record with the user's id
    is the one just written, with the user's name and the role of its host
    flag. *)
Theorem upsert_user_keeps_ids_distinct (u : User.t) (d : Database.t) :
  NoDup (map UserRecord.id (Database.users d)) ->
  let d' := Database.upsertUser u d in
  let record := UserRecord.mk (User.id u) (User.name u)
                  (if User.isHost u then UserRecord.admin else UserRecord.user) in
  NoDup (map UserRecord.id (Database.users d'))
  /\ In record (Database.users d')
  /\ (forall x, In x (Database.users d') -> UserRecord.id x = User.id u -> x = record)
  /\ (forall x, UserRecord.id x <> User.id u ->
                (In x (Database.users d') <-> In x (Database.users d))).
Proof.
  intros Hnd d' record. subst d'. cbn [Database.upsertUser Database.users]. fold record.
  split; [now apply NoDup_keys_put|].
  split; [apply (In_put UserRecord.id); now left|].
  split.
  - intros x Hx Ex. apply (In_put UserRecord.id) in Hx.
    destruct Hx as [->|[_ Hne]]; [reflexivity | now elim Hne].
  - intros x Hne. rewrite (In_put UserRecord.id). split.
    + intros [->|[Hx _]]; [now elim Hne | exact Hx].
    + intros Hx. right. split; [exact Hx | exact Hne].
Qed.

Lemma upsert_user_keeps_ids_distinct_witness :
  let d := Database.upsertUser (member "A" true) Database.empty in
  NoDup (map UserRecord.id (Database.users (Database.upsertUser (member "A" false) d)))
  /\ length (Database.users (Database.upsertUser (member "A" false) d)) = 1%nat.
Proof.
  intros d. split; [|reflexivity].
  apply (upsert_user_keeps_ids_distinct (member "A" false) d).
  repeat constructor. intros [].
Defined.

(** X20: grants and revokes reach the database: after a grantPlay that is carried
    out the target is among the room's permitted users in the database, and
    after a revokePlay that is carried out it is not. *)
Theorem grant_revoke_reach_database (serverNow : Q) (targetUserId roomId : string)
    (w : World) :
  activeRoomId w = Some roomId ->
  let s := roomOf w roomId in
  let admin := RoomState.adminId s in
  let wg := handleServerEvent serverNow (cmd_grantPlay targetUserId) admin w in
  let wr := handleServerEvent serverNow (cmd_revokePlay targetUserId) admin w in
  (~ In targetUserId (RoomState.playAllowedUserIds s) ->
   In targetUserId (Database.getPermissions (RoomState.id s) (db wg)))
  /\ (targetUserId <> admin -> permissionsKeyed (db w) ->
      ~ In targetUserId (Database.getPermissions (RoomState.id s) (db wr))
      /\ permissionsKeyed (db wr)).
Proof.
  intros Eroom s admin wg wr. subst wg wr.
  unfold handleServerEvent. rewrite Eroom. fold (roomOf w roomId). fold s.
  unfold isAdmin. fold admin. rewrite String.eqb_refl. split.
  - intros Hn. apply includes_not_In in Hn. rewrite Hn.
    cbn [negb commit saveState broadcastGlobal setDb db setMockState].
    apply setPermission_grants.
  - intros Hne Hk. apply String.eqb_neq in Hne. rewrite Hne.
    cbn [negb commit saveState broadcastGlobal setDb db setMockState].
    split; [now apply setPermission_revokes | now apply setPermission_keyed].
Qed.

Lemma grant_revoke_reach_database_witness :
  let w := worldOf trioRoom in
  In "B"%string
     (Database.getPermissions "R1" (db (handleServerEvent 0 (cmd_grantPlay "B") "A" w)))
  /\ ~ In "C"%string
        (Database.getPermissions "R1" (db (handleServerEvent 0 (cmd_revokePlay "C") "A" w))).
Proof.
  intros w.
  destruct (grant_revoke_reach_database 0 "B" "R1" w eq_refl) as [Hg _].
  destruct (grant_revoke_reach_database 0 "C" "R1" w eq_refl) as [_ Hr].
  split.
  - apply Hg. simpl. intros [E|[E|[]]]; discriminate.
  - apply Hr; [discriminate | intros p []].
Defined.

(** * Join and leave *)








(** * Events *)

Ltac outbox_leaf :=
  first
    [ solve [ exists []; split; [now rewrite app_nil_r|]; left;
              split; [reflexivity | intros ae []] ]
    | solve [ eexists; split; [reflexivity|]; left;
              split; [reflexivity|]; intros ae [<-|[]]; reflexivity ]
    | solve [ rewrite <- ?app_assoc; eexists; split; [reflexivity|]; right;
              eexists _, _; split; [reflexivity|]; split; [reflexivity|];
              split; [reflexivity|];
              intros ae Hae;
              repeat (destruct Hae as [<-|Hae]; [split; reflexivity|]);
              destruct Hae ] ].

(** X23: no operation withdraws an event: the outbox after it is the outbox
    before it with the events of the operation appended.  When the operation
    saved nothing, none of these is a snapshot; when it saved a snapshot, the
    first of them is the broadcast of exactly the snapshot saved, and the
    others, all broadcast to the room, are no snapshots. *)
Theorem snapshot_is_sent_first (o : Op) (w : World) :
  exists es,
    outbox (step o w) = outbox w ++ es
    /\ ((localStorage (step o w) = localStorage w
         /\ forall ae, In ae es -> isSnapshot (snd ae) = false)
        \/ exists s' rest,
             es = (Global, room_update s') :: rest
             /\ mockState (step o w) = Some s'
             /\ localStorage (step o w) = setItem (RoomState.id s') s' (localStorage w)
             /\ forall ae, In ae rest -> fst ae = Global /\ isSnapshot (snd ae) = false).
Proof.
  destruct o as [userName roomId userId | userId | serverNow c userId]; cbn [step].
  - unfold connect.
    destruct (String.eqb roomId EmptyString); [simpl; outbox_leaf|].
    set (s := loadState (localStorage w) roomId).
    destruct (Nat.eqb (length (RoomState.users s)) 0);
      [| destruct (String.eqb (RoomState.adminId s) EmptyString)].
    all: simpl; outbox_leaf.
  - unfold disconnect.
    destruct (activeRoomId w) as [roomId|]; [|outbox_leaf].
    set (s := loadState (localStorage w) roomId).
    set (users1 := filter _ (RoomState.users s)).
    destruct (String.eqb userId (RoomState.adminId s));
      [destruct users1 as [|newAdmin rest];
        [|destruct (negb (includes (User.id newAdmin) (RoomState.playAllowedUserIds s)))]|].
    all: destruct (find _ (RoomState.users s)); simpl; outbox_leaf.
  - unfold emit. destruct (activeRoomId w) as [roomId|] eqn:Eroom; [|outbox_leaf].
    destruct (mockState w); [|outbox_leaf].
    unfold handleServerEvent. rewrite Eroom.
    set (s := loadState (localStorage w) roomId).
    destruct c; simpl.
    all: repeat match goal with
         | |- context [if ?b then _ else _] => destruct b; simpl
         | |- context [match at_index ?l ?i with _ => _ end] => destruct (at_index l i); simpl
         | |- context [match Track.type ?t with _ => _ end] => destruct (Track.type t); simpl
         | |- context [match RoomState.currentTrackId ?t with _ => _ end] =>
             destruct (RoomState.currentTrackId t); simpl
         end.
    all: outbox_leaf.
Qed.

(** * Probes against the mock server *)

(** X24: a ping, from any user, changes neither store nor database and is
    answered, to the listeners of the tab only, by a pong that echoes the send
    time and gives the server time [serverNow] for both receipt and reply.
    For such a pong that arrives at [t4], the client measures the round trip
    [max 0 (t4 - t1)] and the offset [serverNow - (t1 + t4) / 2]; as the mock
    server reads the clock of the tab, [t1 <= serverNow <= t4], and this
    offset, which is all error, is at most half the round trip. *)
Theorem ping_pong (serverNow t1 t4 : Q) (userId roomId : string) (w : World) :
  activeRoomId w = Some roomId ->
  let w' := handleServerEvent serverNow (sync_ping t1) userId w in
  let p := mkPong t1 serverNow serverNow t4 in
  outbox w' = outbox w ++ [(Local, sync_pong t1 serverNow serverNow)]
  /\ localStorage w' = localStorage w
  /\ db w' = db w
  /\ pongRtt p == Qmax 0 (t4 - t1)
  /\ pongOffset p == serverNow - (t1 + t4) / 2
  /\ (t1 <= serverNow -> serverNow <= t4 -> Qabs (pongOffset p) <= pongRtt p / 2).
Proof.
  intros Eroom w' p. subst w'. unfold handleServerEvent. rewrite Eroom.
  cbn [broadcastToLocal setMockState outbox localStorage db].
  assert (Hrtt : pongRtt p == Qmax 0 (t4 - t1)).
  { unfold pongRtt, SyncManager.rttOf, p.
    cbn [clientSendTime serverReceiveTime serverReplyTime clientReceiveTime].
    apply Q.max_compat; [reflexivity | ring]. }
  assert (Hoff : pongOffset p == serverNow - (t1 + t4) / 2).
  { unfold pongOffset, SyncManager.rawOffsetOf, p.
    cbn [clientSendTime serverReceiveTime serverReplyTime clientReceiveTime]. field. }
  split; [reflexivity|]. split; [reflexivity|]. split; [reflexivity|].
  split; [exact Hrtt|]. split; [exact Hoff|].
  intros Hlo Hhi. rewrite Hrtt, Hoff.
  rewrite Q.max_r by lra.
  apply Qabs_Qle_condition.
  setoid_replace ((t4 - t1) / 2) with ((t4 - t1) * (1 # 2)) by field.
  setoid_replace ((t1 + t4) / 2) with ((t1 + t4) * (1 # 2)) by field.
  split; lra.
Qed.

Lemma ping_pong_witness :
  Qabs (pongOffset (mkPong 1000 1060 1060 1080)) <= pongRtt (mkPong 1000 1060 1060 1080) / 2.
Proof.
  apply (ping_pong 1060 1000 1080 "A" "R1" (worldOf soloRoom) eq_refl); discriminate.
Defined.

(** * The client's scheduler *)

(** X25: a play that is carried out and the clients agree on the position.  With
    [startAt] the start time the room stores and [playAt], [startOffset] the
    fields of the play:scheduled event: a client whose estimate [T] of the
    server time is within 20 ms of [playAt] or past it plays at once from the
    position the room has at [T] (or from 0 when that is negative); a client
    that is earlier waits [playAt - T] and starts from the position the room
    has at [playAt]; and a client that catches up from the snapshot, once the
    position at [T] is positive, starts from that same position. *)
Theorem clients_start_at_room_position (serverNow p : Q) (userId roomId : string)
    (w : World) :
  activeRoomId w = Some roomId ->
  let s := roomOf w roomId in
  let w' := handleServerEvent serverNow cmd_play userId w in
  In userId (RoomState.playAllowedUserIds s) ->
  RoomState.playbackState s <> PLAYING ->
  RoomState.pausedAtPosition s = Some p ->
  exists s' startAt playAt startOffset,
    mockState w' = Some s'
    /\ RoomState.startAtServerTime s' = Some startAt
    /\ In (Global, play_scheduled (RoomState.currentTrackId s) playAt startOffset) (outbox w')
    /\ forall T,
         (playAt - T <= 20 ->
          exists position,
            onPlayScheduled true T playAt startOffset = playFrom position
            /\ position == Qmax 0 (elapsedAt T startAt))
         /\ (20 < playAt - T ->
             onPlayScheduled true T playAt startOffset = playAfter (playAt - T) startOffset
             /\ startOffset == elapsedAt playAt startAt)
         /\ (0 < elapsedAt T startAt ->
             catchUpToLive true T startAt = playFrom (elapsedAt T startAt)).
Proof.
  intros Eroom s w' Hperm Hstate Hpaused.
  destruct (play_run serverNow userId roomId w Eroom Hperm Hstate) as [d E].
  fold s in E. fold w' in E. rewrite Hpaused in E.
  pose proof (orZero_value p) as Hz.
  exists (RoomState.withPlayback (RoomState.currentTrackId s) PLAYING
            (Some (serverNow + 500 - orZero (Some p) * 1000)) (Some p) s),
         (serverNow + 500 - orZero (Some p) * 1000), (serverNow + 500), (orZero (Some p)).
  split; [rewrite E; reflexivity|]. split; [reflexivity|].
  split.
  { rewrite E. cbn [broadcastGlobal outbox]. apply in_or_app. right. now left. }
  intros T. unfold onPlayScheduled, catchUpToLive, elapsedAt. cbn [negb].
  split; [|split].
  - intros Hlate. apply Qle_bool_iff in Hlate. rewrite Hlate.
    eexists. split; [reflexivity|].
    apply Q.max_compat; [reflexivity | field].
  - intros Hearly.
    assert (Hb : Qle_bool (serverNow + 500 - T) 20 = false).
    { apply not_true_is_false. intros Hle. apply Qle_bool_iff in Hle. lra. }
    rewrite Hb. split; [reflexivity | field].
  - intros Hpos. unfold Qltb.
    assert (Hb : Qle_bool ((T - (serverNow + 500 - orZero (Some p) * 1000)) / 1000) 0 = false).
    { apply not_true_is_false. intros Hle. apply Qle_bool_iff in Hle.
      apply (Qlt_irrefl 0). eapply Qlt_le_trans; eassumption. }
    now rewrite Hb.
Qed.

Lemma clients_start_at_room_position_witness :
  exists s' startAt,
    mockState (handleServerEvent 0 cmd_play "A" (worldOf (pausedRoom 10))) = Some s'
    /\ RoomState.startAtServerTime s' = Some startAt
    /\ (0 < elapsedAt 2000 startAt ->
        catchUpToLive true 2000 startAt = playFrom (elapsedAt 2000 startAt)).
Proof.
  destruct (clients_start_at_room_position 0 10 "A" "R1" (worldOf (pausedRoom 10)) eq_refl)
    as (s' & startAt & playAt & startOffset & Hm & Hs & _ & HT);
    [now left | discriminate | reflexivity |].
  exists s', startAt. split; [exact Hm|]. split; [exact Hs | apply HT].
Defined.

(** * Rooms that operations can reach *)



